(** * gerrit-commit-extractor: a shallow embedding and its properties

    The program reads a credential from [~/.gitcookies], pages through the
    Gerrit REST API for one owner's merged changes, sorts them by submission
    time and writes a Markdown report.

    Layout: the ECMAScript builtins the program calls ([Js]), the constants
    of [config.ts] ([Config]), the data model of [gerritApi.ts], the runtime
    and the world of one run, one module per source file ([GitCookies],
    [GerritApi], [Index]), the vocabulary of the specification ([Spec]) and
    sample inputs ([Samples]); the properties follow the model. *)

From Stdlib Require Import ZArith Ascii String Lia.
From stdpp Require Import base strings list gmap pretty sorting.

Local Open Scope list_scope.

(** ** ECMAScript builtins on strings

    A [string] is the sequence of the characters of a JavaScript string, one
    [ascii] per code unit below 256. *)

Module Js.

Definition tab : ascii := "009"%char.
Definition lf : ascii := "010"%char.
Definition nl : string := String lf "".
Definition dquote : string := String "034"%char "".

(** A string in a condition: the empty string is falsy. *)
Definition truthy (s : string) : bool :=
  match s with
  | "" => false
  | String _ _ => true
  end.

(** [s.startsWith(p)] *)
Fixpoint startsWith (s p : string) : bool :=
  match p, s with
  | "", _ => true
  | String _ _, "" => false
  | String c p', String d s' => Ascii.eqb c d && startsWith s' p'
  end.

(** [s.substring(n)]: the string without its first [n] characters. *)
Fixpoint substring (n : nat) (s : string) : string :=
  match n, s with
  | O, _ => s
  | S _, "" => ""
  | S n', String _ s' => substring n' s'
  end.

(** [s.endsWith(p)]: the last [length p] characters of [s] are [p]. *)
Definition endsWith (s p : string) : bool :=
  (String.length p <=? String.length s)%nat
  && String.eqb (substring (String.length s - String.length p) s) p.

(** WhiteSpace and LineTerminator code points below 256:
    TAB, LF, VT, FF, CR, SP and NBSP. *)
Definition isWhiteSpace (c : ascii) : bool :=
  match c with
  | "009" | "010" | "011" | "012" | "013" | " " | "160" => true
  | _ => false
  end%char.

Fixpoint trimStart (s : string) : string :=
  match s with
  | "" => ""
  | String c s' => if isWhiteSpace c then trimStart s' else s
  end.

Definition trimEnd (s : string) : string :=
  String.rev (trimStart (String.rev s)).

(** [s.trim()] *)
Definition trim (s : string) : string := trimEnd (trimStart s).

(** [s.split(sep)] for a one-character separator: the pieces between the
    occurrences of [sep]; the empty string gives one empty piece. *)
Fixpoint split (sep : ascii) (s : string) : list string :=
  match s with
  | "" => [""]
  | String c s' =>
      if Ascii.eqb c sep then "" :: split sep s'
      else match split sep s' with
           | [] => [String c ""]
           | piece :: pieces => String c piece :: pieces
           end
  end.

(** [s.split(sep, limit)]: the first [limit] pieces of [s.split(sep)]; what
    follows them is dropped. *)
Definition split_limit (sep : ascii) (limit : nat) (s : string) : list string :=
  take limit (split sep s).

(** [Array.prototype.sort(comparefn)]: a stable sort (ECMAScript 2019). The
    comparator returns a number, [None] standing for NaN, which the sort
    reads as +0. Written as a stable insertion sort: for a consistent
    comparator every stable sort returns this list. *)
Definition before {A} (comparefn : A → A → option Z) (x y : A) : bool :=
  match comparefn x y with
  | Some v => (v <=? 0)%Z
  | None => true
  end.

Fixpoint insertBy {A} (comparefn : A → A → option Z) (x : A) (l : list A) : list A :=
  match l with
  | [] => [x]
  | y :: l' =>
      if before comparefn x y then x :: y :: l'
      else y :: insertBy comparefn x l'
  end.

Definition Array_sort {A} (comparefn : A → A → option Z) (l : list A) : list A :=
  foldr (insertBy comparefn) [] l.

(** An [Error] object: its name and message. *)
Record Error := { name : string; message : string }.

(** [new Error(message)] *)
Definition newError (msg : string) : Error := {| name := "Error"; message := msg |}.

(** [String(e)], as [Error.prototype.toString] gives it. *)
Definition toString (e : Error) : string :=
  if negb (truthy (name e)) then message e
  else if negb (truthy (message e)) then name e
  else name e +:+ ": " +:+ message e.

(** The outcome of a call that may throw. *)
Inductive result (A : Type) : Type :=
  | Return (a : A)
  | Throw (e : Error).
Global Arguments Return {A} a.
Global Arguments Throw {A} e.

End Js.

Import Js.

(** ** config.ts *)

Module Config.

Definition CL_OWNER : string := "you@gmail.com".
Definition GERRIT_SERVER_URL : string := "https://fuchsia-review.googlesource.com".
Definition OUTPUT_FILENAME : string := "fuchsia_commit_messages.md".
Definition DAYS_TO_LOOK_BACK : nat := 180.
Definition API_FETCH_LIMIT : nat := 500.

End Config.

Import Config.

(** ** The data model of gerritApi.ts *)

Module CommitInfo.
Record t := { commit : string; subject : string; message : string }.
End CommitInfo.

Module RevisionInfo.
Record t := { commit : option CommitInfo.t }.
End RevisionInfo.

(** [revisions] is a JavaScript object used as a map from SHA-1 to revision;
    [revisions] and [current_revision] are optional. A key the object does
    not own reads as a revision without commit: [undefined], or an inherited
    property of [Object.prototype], none of which has a [commit]. *)
Module ChangeInfo.
Record t := {
  id : string;
  project : string;
  branch : string;
  change_id : string;
  subject : string;
  status : string;
  submitted : string;
  revisions : option (gmap string RevisionInfo.t);
  current_revision : option string
}.
End ChangeInfo.

(** ** The runtime: what Node.js and the libraries compute for the program *)

Class Platform := {
  (** [new URL(s).hostname]; [None] when the constructor throws *)
  URL_hostname : string → option string;
  (** [path.join(os.homedir(), '.gitcookies')] *)
  gitcookiesPath : string;
  (** [JSON.parse], read at the type the program gives its result *)
  JSON_parse : string → result (list ChangeInfo.t);
  (** [new Date(s).getTime()], in milliseconds; [None] is NaN (Invalid Date) *)
  Date_getTime : string → option Z;
  (** [new Date(s).toLocaleString()] *)
  Date_toLocaleString : string → string;
  (** date-fns [subDays] and [format], on instants in milliseconds *)
  subDays : Z → nat → Z;
  format : Z → string → string;
  (** [Buffer.from(s).toString('base64')] *)
  base64 : string → string
}.

(** An HTTP response as node-fetch hands it over. *)
Record Response := {
  status : nat;
  statusText : string;
  text : string
}.

(** node-fetch's [ok] getter: the status is in the range 200-299. *)
Definition ok (r : Response) : bool :=
  (200 <=? status r)%nat && (status r <? 300)%nat.

(** What one [await fetch(url, ...)] comes back with. *)
Inductive FetchOutcome :=
  | Rejected (e : Error)
  | Responded (r : Response).

(** The world of one run: the file system, the two readings of the clock,
    and the outcomes of the HTTP requests, in the order they are issued. *)
Record World := {
  existsSync : string → bool;
  readFileSync : string → result string;
  writeFileSync : string → string → option Error;
  clock1 : Z;
  clock2 : Z;
  network : list FetchOutcome
}.

(** What a run does that can be seen from outside. *)
Inductive Event :=
  | Log (line : string)
  | Warn (line : string)
  | ErrorLog (line : string)
  | ErrorLogWith (line : string) (e : Error)
  | HttpGet (url : string) (Authorization ContentType : string)
  | FileWritten (path content : string).

(** How a run ends: [process.exit(code)], the end of [main], or, when the
    outcomes of [network] run out, a request that is still waiting. *)
Inductive Termination :=
  | Exited (code : Z)
  | Completed
  | Pending.

(** ** gitCookies.ts *)

Module GitCookies.

Record Credentials := { username : string; httpPassword : string }.

Section GetGerritCredentials.
Context {P : Platform}.

(** The example line both error messages of the file scan end with. *)
Definition exampleLine (targetHost : string) : string :=
  targetHost +:+ String tab "TRUE" +:+ String tab "/" +:+ String tab "TRUE"
  +:+ String tab "<timestamp>" +:+ String tab "o"
  +:+ String tab "<username>=<password>".

Definition invalidUrlMessage (gerritServerUrl : string) : string :=
  "Invalid GERRIT_SERVER_URL format: " +:+ gerritServerUrl
  +:+ ". Cannot parse hostname.".

Definition notFoundMessage (targetHost : string) : string :=
  "Error: .gitcookies file not found at " +:+ gitcookiesPath +:+ "." +:+ nl
  +:+ "Please ensure it exists and is configured for your Gerrit server." +:+ nl
  +:+ "Example line for " +:+ targetHost +:+ ":" +:+ nl
  +:+ exampleLine targetHost.

Definition noCredentialsMessage (targetHost gerritServerUrl : string) : string :=
  "Credentials for " +:+ targetHost +:+ " (from " +:+ gerritServerUrl
  +:+ ") not found in " +:+ gitcookiesPath +:+ " with cookie name 'o'." +:+ nl
  +:+ "Ensure a line exists like: " +:+ exampleLine targetHost.

Definition hostMatches (domainInCookie targetHost : string) : bool :=
  (startsWith domainInCookie "."
   && (endsWith targetHost domainInCookie
       || String.eqb targetHost (substring 1 domainInCookie)))
  || (negb (startsWith domainInCookie ".")
      && String.eqb targetHost domainInCookie).

(** The body of the loop over the lines: [Some] when the line makes the
    function return, [None] when the loop goes on to the next line. The
    seven-element pattern is the test [parts.length !== 7] together with the
    reads of [parts[0]], [parts[5]] and [parts[6]]. *)
Definition scanLine (targetHost line : string) : option Credentials :=
  if startsWith line "#" || String.eqb (trim line) "" then None
  else
    match split tab line with
    | [domainInCookie; _; _; _; _; cookieName; cookieValue] =>
        if hostMatches domainInCookie targetHost && String.eqb cookieName "o" then
          match split_limit "=" 2 cookieValue with
          | [username; password] =>
              if truthy username && truthy password
              then Some {| username := username; httpPassword := password |}
              else None
          | _ => None
          end
        else None
    | _ => None
    end.

Fixpoint scanLines (targetHost : string) (lines : list string) : option Credentials :=
  match lines with
  | [] => None
  | line :: lines' =>
      match scanLine targetHost line with
      | Some credentials => Some credentials
      | None => scanLines targetHost lines'
      end
  end.

Definition getGerritCredentials (W : World) (gerritServerUrl : string)
  : result Credentials :=
  match URL_hostname gerritServerUrl with
  | None => Throw (newError (invalidUrlMessage gerritServerUrl))
  | Some targetHost =>
      if negb (existsSync W gitcookiesPath)
      then Throw (newError (notFoundMessage targetHost))
      else
        match readFileSync W gitcookiesPath with
        | Throw e => Throw e
        | Return content =>
            match scanLines targetHost (split lf content) with
            | Some credentials => Return credentials
            | None => Throw (newError (noCredentialsMessage targetHost gerritServerUrl))
            end
        end
  end.

End GetGerritCredentials.
End GitCookies.

(** ** gerritApi.ts *)

Module GerritApi.

(** The variables of [fetchMergedChanges] that the loop updates. *)
Record LoopState := {
  allChanges : list ChangeInfo.t;
  start : nat;
  hasMore : bool
}.

Definition initial : LoopState :=
  {| allChanges := []; start := 0; hasMore := true |}.

Section FetchMergedChanges.
Context {P : Platform}.

Definition authHeader (gerritUsername gerritHttpPassword : string) : string :=
  "Basic " +:+ base64 (gerritUsername +:+ ":" +:+ gerritHttpPassword).

Definition requestUrl (owner afterDate : string) (start : nat) : string :=
  GERRIT_SERVER_URL +:+ "/a/changes/?q=status:merged+after:" +:+ afterDate
  +:+ "+owner:" +:+ owner +:+ "&o=CURRENT_COMMIT&o=CURRENT_REVISION&S="
  +:+ pretty start +:+ "&n=" +:+ pretty API_FETCH_LIMIT.

Definition apiErrorMessage (r : Response) : string :=
  "Gerrit API error: " +:+ pretty (status r) +:+ " - " +:+ statusText r +:+ nl
  +:+ "Response body: " +:+ text r.

(** The XSS-protection prefix test and the text handed to [JSON.parse]. *)
Definition jsonText (rawText : string) : string :=
  if startsWith rawText (")]}'" +:+ nl) then substring 4 rawText else rawText.

Definition decode (rawText : string) : result (list ChangeInfo.t) :=
  JSON_parse (jsonText rawText).

(** The statements of the [try] block that follow [JSON.parse]. *)
Definition onPage (st : LoopState) (changes : list ChangeInfo.t)
  : list Event * LoopState :=
  let n := length changes in
  let allChanges' := if (0 <? n)%nat then allChanges st ++ changes else allChanges st in
  let start' := if (0 <? n)%nat then (start st + n)%nat else start st in
  let hasMore' := (n =? API_FETCH_LIMIT)%nat in
  if (n =? 0)%nat && (start' =? 0)%nat then
    ([Log "No merged changes found for the given criteria."],
     {| allChanges := allChanges'; start := start'; hasMore := false |})
  else if negb hasMore' then
    ([Log ("Fetched " +:+ pretty n +:+ " changes. Reached end of results.")],
     {| allChanges := allChanges'; start := start'; hasMore := hasMore' |})
  else
    ([Log ("Fetched " +:+ pretty n +:+ " changes. Continuing to fetch more...")],
     {| allChanges := allChanges'; start := start'; hasMore := hasMore' |}).

(** The [try] block once [fetch] has settled. *)
Definition tryPage (out : FetchOutcome) (st : LoopState)
  : list Event * result LoopState :=
  match out with
  | Rejected e => ([], Throw e)
  | Responded response =>
      if negb (ok response) then ([], Throw (newError (apiErrorMessage response)))
      else
        match decode (text response) with
        | Throw e => ([], Throw e)
        | Return changes =>
            let '(events, st') := onPage st changes in (events, Return st')
        end
  end.

(** One pass through the loop body: the [try] block, and the [catch] block
    that logs the error and throws it again. *)
Definition iteration (out : FetchOutcome) (st : LoopState)
  : list Event * result LoopState :=
  match tryPage out st with
  | (events, Return st') => (events, Return st')
  | (events, Throw e) =>
      (events ++ [ErrorLog ("Error fetching changes from Gerrit API: " +:+ toString e)],
       Throw e)
  end.

Definition request (owner afterDate auth : string) (st : LoopState) : list Event :=
  let url := requestUrl owner afterDate (start st) in
  [Log ("Fetching page (start: " +:+ pretty (start st) +:+ ", limit: "
        +:+ pretty API_FETCH_LIMIT +:+ "): " +:+ url);
   HttpGet url auth "application/json"].

(** The [while (hasMore)] loop, one outcome of [net] per request. The value
    is [None] when [net] ends while the loop still waits for a response. *)
Fixpoint loop (owner afterDate auth : string) (net : list FetchOutcome)
  (st : LoopState) : list Event * option (result (list ChangeInfo.t)) :=
  if hasMore st then
    match net with
    | [] => (request owner afterDate auth st, None)
    | out :: net' =>
        match iteration out st with
        | (events, Throw e) =>
            (request owner afterDate auth st ++ events, Some (Throw e))
        | (events, Return st') =>
            let '(events', r) := loop owner afterDate auth net' st' in
            (request owner afterDate auth st ++ events ++ events', r)
        end
    end
  else
    ([Log ("Total merged changes fetched across all pages: "
           +:+ pretty (length (allChanges st)))],
     Some (Return (allChanges st))).

Definition fetchMergedChanges (owner afterDate gerritUsername gerritHttpPassword : string)
  (net : list FetchOutcome) : list Event * option (result (list ChangeInfo.t)) :=
  let '(events, r) :=
    loop owner afterDate (authHeader gerritUsername gerritHttpPassword) net initial in
  (Log ("Starting fetch for merged changes submitted after: " +:+ afterDate) :: events, r).

End FetchMergedChanges.

(** The requests among the events of a run, as (url, Authorization). *)
Fixpoint requests (events : list Event) : list (string * string) :=
  match events with
  | [] => []
  | HttpGet url auth _ :: events' => (url, auth) :: requests events'
  | _ :: events' => requests events'
  end.

End GerritApi.

(** ** index.ts *)

Module Index.
Import GitCookies GerritApi.

Section Main.
Context {P : Platform}.

(** The comparator handed to [sort]. Both times are integers of magnitude at
    most 8.64e15 or NaN; the sort reads only the sign of the difference, which
    the subtraction of doubles keeps, so the difference is taken in [Z]. *)
Definition comparefn (a b : ChangeInfo.t) : option Z :=
  match Date_getTime (ChangeInfo.submitted b), Date_getTime (ChangeInfo.submitted a) with
  | Some tb, Some ta => Some (tb - ta)%Z
  | _, _ => None
  end.

(** The three pieces [markdownContent] starts with; [now] is the [new Date()]
    of the second piece. *)
Definition documentHeader (now : Z) : string :=
  ("# Merged Gerrit CL Commit Messages (Last " +:+ pretty DAYS_TO_LOOK_BACK
   +:+ " Days)" +:+ nl +:+ nl)
  +:+ ("*Generated on: " +:+ format now "yyyy-MM-dd HH:mm:ss" +:+ "*" +:+ nl +:+ nl)
  +:+ ("This document lists the commit messages (CL summary descriptions) from merged Gerrit Code Reviews submitted in the last "
       +:+ pretty DAYS_TO_LOOK_BACK +:+ " days." +:+ nl +:+ nl).

(** [revision?.commit] for the revision named by [current_revision]. *)
Definition currentCommit (change : ChangeInfo.t) : option CommitInfo.t :=
  let revision :=
    match ChangeInfo.current_revision change with
    | Some currentRevisionSha =>
        if truthy currentRevisionSha then
          match ChangeInfo.revisions change with
          | Some revisions => revisions !! currentRevisionSha
          | None => None
          end
        else None
    | None => None
    end in
  match revision with
  | Some r => RevisionInfo.commit r
  | None => None
  end.

(** The template of the branch [if (commit)]. *)
Definition sectionWithMessage (change : ChangeInfo.t) (commit : CommitInfo.t) : string :=
  "---" +:+ nl
  +:+ "### " +:+ ChangeInfo.subject change +:+ nl
  +:+ "* **Project:** `" +:+ ChangeInfo.project change +:+ "`" +:+ nl
  +:+ "* **Branch:** `" +:+ ChangeInfo.branch change +:+ "`" +:+ nl
  +:+ "* **Change-Id:** `" +:+ ChangeInfo.change_id change +:+ "`" +:+ nl
  +:+ "* **Submitted:** `" +:+ Date_toLocaleString (ChangeInfo.submitted change)
  +:+ "`" +:+ nl
  +:+ "* **Gerrit Link:** <" +:+ GERRIT_SERVER_URL +:+ "/c/"
  +:+ ChangeInfo.project change +:+ "/+/" +:+ ChangeInfo.change_id change +:+ ">" +:+ nl
  +:+ "```" +:+ nl
  +:+ CommitInfo.message commit +:+ nl
  +:+ "```" +:+ nl
  +:+ nl.

(** The template of the [else] branch. *)
Definition sectionWithoutMessage (change : ChangeInfo.t) : string :=
  "---" +:+ nl
  +:+ "### " +:+ ChangeInfo.subject change +:+ nl
  +:+ "* **Project:** `" +:+ ChangeInfo.project change +:+ "`" +:+ nl
  +:+ "* **Branch:** `" +:+ ChangeInfo.branch change +:+ "`" +:+ nl
  +:+ "* **Change-Id:** `" +:+ ChangeInfo.change_id change +:+ "`" +:+ nl
  +:+ "* **Submitted:** `" +:+ Date_toLocaleString (ChangeInfo.submitted change)
  +:+ "`" +:+ nl
  +:+ "* **Gerrit Link:** <" +:+ GERRIT_SERVER_URL +:+ "/c/"
  +:+ ChangeInfo.project change +:+ "/+/" +:+ ChangeInfo.change_id change +:+ ">" +:+ nl
  +:+ "_Commit message could not be retrieved._" +:+ nl
  +:+ nl.

Definition missingMessageWarning (change : ChangeInfo.t) : string :=
  "Warning: Could not retrieve full commit message for Change-Id: "
  +:+ ChangeInfo.change_id change +:+ " (Subject: " +:+ dquote
  +:+ ChangeInfo.subject change +:+ dquote +:+ ")".

(** The body of the loop over the changes: what it logs and what it appends
    to [markdownContent]. *)
Definition renderChange (change : ChangeInfo.t) : list Event * string :=
  match currentCommit change with
  | Some commit => ([], sectionWithMessage change commit)
  | None => ([Warn (missingMessageWarning change)], sectionWithoutMessage change)
  end.

Fixpoint renderChanges (changes : list ChangeInfo.t) (markdownContent : string)
  : list Event * string :=
  match changes with
  | [] => ([], markdownContent)
  | change :: changes' =>
      let '(events, section) := renderChange change in
      let '(events', markdownContent') :=
        renderChanges changes' (markdownContent +:+ section) in
      (events ++ events', markdownContent')
  end.

(** The document-building step: from the header to the end of the loop. *)
Definition buildDocument (now : Z) (mergedChanges : list ChangeInfo.t)
  : list Event * string :=
  let markdownContent := documentHeader now in
  if (length mergedChanges =? 0)%nat then
    ([], markdownContent +:+ "No merged changes found for the specified period." +:+ nl)
  else
    renderChanges (Array_sort comparefn mergedChanges) markdownContent.

(** The [catch] block of the second [try]. *)
Definition unexpected (error : Error) : list Event :=
  [ErrorLogWith (nl +:+ "An unexpected error occurred:") error].

(** Every exception of the model is an [Error] object, so the message
    logged after the first [catch] is [error.message]. *)
Definition main (W : World) : list Event * Termination :=
  match getGerritCredentials W GERRIT_SERVER_URL with
  | Throw error =>
      ([ErrorLog "FATAL: Could not load Gerrit credentials from .gitcookies.";
        ErrorLog (Js.message error)],
       Exited 1)
  | Return credentials =>
      let gerritUsername := username credentials in
      let gerritHttpPassword := httpPassword credentials in
      let loaded :=
        [Log ("Successfully loaded credentials for user: " +:+ gerritUsername)] in
      let sixMonthsAgo := subDays (clock1 W) DAYS_TO_LOOK_BACK in
      let afterDate := format sixMonthsAgo "yyyy-MM-dd" in
      let initiating :=
        [Log ("Initiating process to fetch merged CLs submitted after: " +:+ afterDate)] in
      match fetchMergedChanges CL_OWNER afterDate gerritUsername gerritHttpPassword
              (network W) with
      | (fetching, None) => (loaded ++ initiating ++ fetching, Pending)
      | (fetching, Some (Throw error)) =>
          (loaded ++ initiating ++ fetching ++ unexpected error, Exited 1)
      | (fetching, Some (Return mergedChanges)) =>
          let '(warnings, markdownContent) :=
            buildDocument (clock2 W) mergedChanges in
          match writeFileSync W OUTPUT_FILENAME markdownContent with
          | Some error =>
              (loaded ++ initiating ++ fetching ++ warnings ++ unexpected error,
               Exited 1)
          | None =>
              (loaded ++ initiating ++ fetching ++ warnings
               ++ [FileWritten OUTPUT_FILENAME markdownContent;
                   Log (nl +:+ "Process completed successfully! Commit messages saved to "
                        +:+ OUTPUT_FILENAME)],
               Completed)
          end
      end
  end.

End Main.

(** The files written among the events of a run. *)
Fixpoint filesWritten (events : list Event) : list (string * string) :=
  match events with
  | [] => []
  | FileWritten path content :: events' => (path, content) :: filesWritten events'
  | _ :: events' => filesWritten events'
  end.

Fixpoint warnings (events : list Event) : list string :=
  match events with
  | [] => []
  | Warn line :: events' => line :: warnings events'
  | _ :: events' => warnings events'
  end.

End Index.

(** ** The specification's vocabulary *)

Module Spec.

Abbreviation chars := list_ascii_of_string.

(** [m] includes [x] as a contiguous part. *)
Definition includes (m x : string) : Prop :=
  ∃ pre post, m = pre +:+ x +:+ post.


(** Section 4.1, the selection rule: a domain-pattern without a leading dot
    matches the host it equals; one with a leading dot matches the host that
    equals the pattern with the dot stripped, and the hosts that end with the
    dotted pattern. *)
Definition hostMatch (pattern host : string) : Prop :=
  (¬ (∃ rest, pattern = "." +:+ rest) ∧ pattern = host)
  ∨ (∃ rest, pattern = "." +:+ rest
             ∧ (host = rest ∨ ∃ sub, host = sub +:+ pattern)).

(** A comment line has a leading [#]; a blank line has only white space. *)
Definition comment (line : string) : Prop := ∃ rest, line = "#" +:+ rest.
Definition blank (line : string) : Prop :=
  Forall (λ c, isWhiteSpace c = true) (chars line).

(** [s] is the pieces [fs] with one [sep] between neighbours, and no other
    [sep]. *)
Definition separated (sep : ascii) (s : string) (fs : list string) : Prop :=
  fs ≠ [] ∧ s = String.concat (String sep "") fs
  ∧ Forall (λ f, sep ∉ chars f) fs.

(** [line] is the fields [fs], separated by tabs. *)
Definition tabSeparated (line : string) (fs : list string) : Prop :=
  separated tab line fs.

(** What the loader takes from a cookie value: the piece before the first
    [=] as username and the piece from there to the next [=], or to the end,
    as token, both non-empty. *)
Definition valuePieces (value u p : string) : Prop :=
  u ≠ "" ∧ p ≠ "" ∧ ("="%char ∉ chars u) ∧ ("="%char ∉ chars p)
  ∧ (value = u +:+ "=" +:+ p ∨ ∃ rest, value = u +:+ "=" +:+ p +:+ "=" +:+ rest).

(** The line is a record for [host] with cookie-name [o] from which the
    loader takes the username [u] and the token [p]. *)
Definition yields (host line u p : string) : Prop :=
  ¬ comment line ∧ ¬ blank line
  ∧ ∃ domain f1 f2 f3 f4 value,
      tabSeparated line [domain; f1; f2; f3; f4; "o"; value]
      ∧ hostMatch domain host ∧ valuePieces value u p.


(** The metadata bullets of a change's section (Section 4.3, step 6). *)
Definition bullets `{Platform} (change : ChangeInfo.t) : string :=
  "---" +:+ nl
  +:+ "### " +:+ ChangeInfo.subject change +:+ nl
  +:+ "* **Project:** `" +:+ ChangeInfo.project change +:+ "`" +:+ nl
  +:+ "* **Branch:** `" +:+ ChangeInfo.branch change +:+ "`" +:+ nl
  +:+ "* **Change-Id:** `" +:+ ChangeInfo.change_id change +:+ "`" +:+ nl
  +:+ "* **Submitted:** `" +:+ Date_toLocaleString (ChangeInfo.submitted change)
  +:+ "`" +:+ nl
  +:+ "* **Gerrit Link:** <" +:+ GERRIT_SERVER_URL +:+ "/c/"
  +:+ ChangeInfo.project change +:+ "/+/" +:+ ChangeInfo.change_id change +:+ ">" +:+ nl.

Definition placeholder : string :=
  "_Commit message could not be retrieved._" +:+ nl +:+ nl.

(** The current revision of [change] leads to no commit: there is no current
    revision, no map of revisions, no revision under that hash, or a
    revision without commit. *)
Definition commitMissing (change : ChangeInfo.t) : Prop :=
  ∀ sha revisions revision,
    ChangeInfo.current_revision change = Some sha →
    ChangeInfo.revisions change = Some revisions →
    revisions !! sha = Some revision →
    RevisionInfo.commit revision = None.

(** The outcome [out] of a request is a successful response whose body
    decodes to [page]. *)
Definition servesPage `{Platform} (out : FetchOutcome) (page : list ChangeInfo.t)
  : Prop :=
  ∃ r, out = Responded r ∧ ok r = true
       ∧ GerritApi.decode (text r) = Return page.

(** The sections of [changes], one after the other. *)
Definition sectionsOf `{Platform} (changes : list ChangeInfo.t) : string :=
  foldr (λ change rest, (Index.renderChange change).2 +:+ rest) "" changes.

(** What rendering [changes] logs, one change after the other. *)
Definition eventsOf `{Platform} (changes : list ChangeInfo.t) : list Event :=
  foldr (λ change rest, (Index.renderChange change).1 ++ rest) [] changes.

(** [reaches st outs st']: from the head of the loop in state [st], the
    passes through the loop body on the outcomes [outs] lead back to the head
    of the loop in state [st']. *)
Inductive reaches `{Platform}
  : GerritApi.LoopState → list FetchOutcome → GerritApi.LoopState → Prop :=
  | reaches_nil st : reaches st [] st
  | reaches_cons st out events st' outs st'' :
      GerritApi.hasMore st = true →
      GerritApi.iteration out st = (events, Return st') →
      reaches st' outs st'' →
      reaches st (out :: outs) st''.

(** The state at the head of the loop after the full pages [pages]. *)
Definition after (st : GerritApi.LoopState) (pages : list (list ChangeInfo.t))
  : GerritApi.LoopState :=
  {| GerritApi.allChanges := GerritApi.allChanges st ++ concat pages;
     GerritApi.start := GerritApi.start st + length (concat pages);
     GerritApi.hasMore := true |}.

(** On [l] the comparator orders by decreasing key. *)
Definition byDecreasingKey {A} (comparefn : A → A → option Z) (key : A → Z)
  (l : list A) : Prop :=
  ∀ x y, x ∈ l → y ∈ l → before comparefn x y = bool_decide (key y ≤ key x)%Z.

(** The offsets at which successive pages begin, from [start]. *)
Fixpoint offsets (start : nat) (pages : list (list ChangeInfo.t)) : list nat :=
  match pages with
  | [] => []
  | page :: pages' => start :: offsets (start + length page) pages'
  end.

(** The outcome [out] of a request makes the [try] block throw [e]: the
    request is rejected with [e], the response is not [ok] and [e] is the
    API error made from it, or the body of an [ok] response does not parse
    and [e] is the error of the parser. *)
Definition failsWith `{Platform} (out : FetchOutcome) (e : Error) : Prop :=
  out = Rejected e
  ∨ (∃ r, out = Responded r ∧ ok r = false
          ∧ e = newError (GerritApi.apiErrorMessage r))
  ∨ (∃ r, out = Responded r ∧ ok r = true
          ∧ GerritApi.decode (text r) = Throw e).

(** The section of a change with the commit message [message]. *)
Definition fenced `{Platform} (change : ChangeInfo.t) (message : string) : string :=
  bullets change +:+ "```" +:+ nl +:+ message +:+ nl +:+ "```" +:+ nl +:+ nl.

End Spec.

(** ** Sample inputs *)

Module Samples.
Import GitCookies GerritApi Index.

Definition syntaxError : Error :=
  {| name := "SyntaxError"; message := "Unexpected token" |}.

(** The change a character stands for in the sample bodies: the character
    is its subject and its submission time; [?] gives a change whose
    revision has no commit, [!] one without current revision. *)
Definition changeOf (c : ascii) : ChangeInfo.t :=
  let s := String c "" in
  {| ChangeInfo.id := "proj~main~I" +:+ s;
     ChangeInfo.project := "proj";
     ChangeInfo.branch := "main";
     ChangeInfo.change_id := "I" +:+ s;
     ChangeInfo.subject := "Fix " +:+ s;
     ChangeInfo.status := "MERGED";
     ChangeInfo.submitted := s;
     ChangeInfo.revisions :=
       Some {[ "abc" :=
         {| RevisionInfo.commit :=
              if Ascii.eqb c "?" then None
              else Some {| CommitInfo.commit := "abc";
                           CommitInfo.subject := "Fix " +:+ s;
                           CommitInfo.message := "Fix " +:+ s +:+ nl +:+ nl +:+ "Details." |} |} ]};
     ChangeInfo.current_revision := if Ascii.eqb c "!" then None else Some "abc" |}.

Fixpoint changesOf (s : string) : list ChangeInfo.t :=
  match s with
  | "" => []
  | String c s' => changeOf c :: changesOf s'
  end.

Fixpoint replicateString (n : nat) (c : ascii) : string :=
  match n with
  | O => ""
  | S n' => String c (replicateString n' c)
  end.

(** A runtime to compute with. A URL is [https://] and a host; a body is
    white space, [[] and one character per change; a date is one digit. *)
Definition platform : Platform := {|
  URL_hostname s := if startsWith s "https://" then Some (substring 8 s) else None;
  gitcookiesPath := "/home/user/.gitcookies";
  JSON_parse s :=
    match trimStart s with
    | String "[" body => Return (changesOf body)
    | _ => Throw syntaxError
    end;
  Date_getTime s :=
    match s with
    | String c "" =>
        if (48 <=? nat_of_ascii c)%nat && (nat_of_ascii c <=? 57)%nat
        then Some (Z.of_nat (nat_of_ascii c) - 48)%Z else None
    | _ => None
    end;
  Date_toLocaleString s := s;
  subDays t n := (t - 86400000 * Z.of_nat n)%Z;
  format t _ := pretty t;
  base64 s := s
|}.

Definition record (domain cookieName cookieValue : string) : string :=
  domain +:+ String tab "TRUE" +:+ String tab "/" +:+ String tab "TRUE"
  +:+ String tab "2147483647" +:+ String tab cookieName +:+ String tab cookieValue.

Definition host : string := "fuchsia-review.googlesource.com".

Definition cookies : string :=
  "# Netscape HTTP Cookie File" +:+ nl
  +:+ nl
  +:+ "malformed line" +:+ nl
  +:+ record "example.com" "o" "other=1//no" +:+ nl
  +:+ record ".googlesource.com" "o" "git-user.example.com=1//0secret" +:+ nl.

(** Two records for the host: the value of the first has no token. *)
Definition cookiesEmptyToken : string :=
  record host "o" "alice=" +:+ nl +:+ record host "o" "bob=secret" +:+ nl.

(** A record whose token has an [=] in it. *)
Definition cookiesTokenWithEquals : string :=
  record host "o" "user=pa=ss" +:+ nl.

Definition okResponse (body : string) : FetchOutcome :=
  Responded {| status := 200; statusText := "OK"; text := ")]}'" +:+ nl +:+ "[" +:+ body |}.

Definition fullPage : string := replicateString API_FETCH_LIMIT "5".

Definition forbidden : Response :=
  {| status := 403; statusText := "Forbidden"; text := "Authentication required" |}.

(** A world with the cookie file [content], if any, and the outcomes [net]. *)
Definition world (content : option string) (now : Z) (net : list FetchOutcome) : World := {|
  existsSync path :=
    match content with
    | Some _ => String.eqb path "/home/user/.gitcookies"
    | None => false
    end;
  readFileSync path :=
    match content with
    | Some c => Return c
    | None => Throw {| name := "Error"; message := "ENOENT" |}
    end;
  writeFileSync _ _ := None;
  clock1 := 1700000000000;
  clock2 := now;
  network := net
|}.

(** A request that the network refuses. *)
Definition refused : Error :=
  {| name := "FetchError"; message := "connect ECONNREFUSED" |}.

(** A change whose current revision is the empty string, with a revision
    and its commit stored under the empty string. *)
Definition emptyHash : ChangeInfo.t :=
  {| ChangeInfo.id := "proj~main~I0";
     ChangeInfo.project := "proj";
     ChangeInfo.branch := "main";
     ChangeInfo.change_id := "I0";
     ChangeInfo.subject := "Fix 0";
     ChangeInfo.status := "MERGED";
     ChangeInfo.submitted := "0";
     ChangeInfo.revisions :=
       Some {[ "" :=
         {| RevisionInfo.commit :=
              Some {| CommitInfo.commit := "";
                      CommitInfo.subject := "Fix 0";
                      CommitInfo.message := "Fix 0" |} |} ]};
     ChangeInfo.current_revision := Some "" |}.

(** The time of a sample change, 0 for an unparsable date. *)
Definition timeOf (c : ChangeInfo.t) : Z :=
  default 0%Z (Date_getTime (Platform := platform) (ChangeInfo.submitted c)).

End Samples.

(** ** Strings as lists of characters *)

Section Strings.
Import Spec.

Lemma chars_app s t : chars (s +:+ t) = chars s ++ chars t.
Proof. induction s as [|c s IH]; simpl; [done | by rewrite IH]. Qed.

Lemma chars_inj s t : chars s = chars t → s = t.
Proof.
  intros E. rewrite <- (string_of_list_ascii_of_string s), E.
  apply string_of_list_ascii_of_string.
Qed.

Lemma chars_length s : length (chars s) = String.length s.
Proof. induction s; simpl; auto. Qed.

Lemma string_app_assoc s t u : (s +:+ t) +:+ u = s +:+ t +:+ u.
Proof. apply chars_inj. by rewrite !chars_app, app_assoc. Qed.

Lemma string_app_nil_r s : s +:+ "" = s.
Proof. apply chars_inj. by rewrite chars_app, app_nil_r. Qed.

Lemma string_app_inv_tail s t u : s +:+ u = t +:+ u → s = t.
Proof.
  intros E. apply chars_inj. apply (f_equal chars) in E.
  rewrite !chars_app in E. by apply app_inv_tail in E.
Qed.

Lemma string_app_length s t :
  String.length (s +:+ t) = (String.length s + String.length t)%nat.
Proof. by rewrite <- !chars_length, chars_app, length_app. Qed.

Lemma chars_substring n s : chars (substring n s) = drop n (chars s).
Proof.
  revert s. induction n as [|n IH]; intros [|c s]; simpl; auto.
Qed.

Lemma substring_app s t : substring (String.length s) (s +:+ t) = t.
Proof.
  apply chars_inj.
  by rewrite chars_substring, chars_app, <- chars_length, drop_app_length.
Qed.

Lemma startsWith_spec s p : startsWith s p = true ↔ ∃ r, s = p +:+ r.
Proof.
  revert s. induction p as [|c p IH]; intros s; simpl.
  - split; [by exists s | by destruct s].
  - destruct s as [|d s]; simpl.
    + split; [done | by intros [r ?]].
    + rewrite andb_true_iff, Ascii.eqb_eq, IH. split.
      * intros [-> [r ->]]. by exists r.
      * intros [r E]. injection E as -> ->. eauto.
Qed.

Lemma startsWith_false s p : startsWith s p = false ↔ ¬ ∃ r, s = p +:+ r.
Proof.
  rewrite <- startsWith_spec. by destruct (startsWith s p).
Qed.

Lemma endsWith_spec s p : endsWith s p = true ↔ ∃ r, s = r +:+ p.
Proof.
  unfold endsWith. rewrite andb_true_iff, Nat.leb_le, String.eqb_eq. split.
  - intros [Hle E].
    exists (string_of_list_ascii (take (String.length s - String.length p) (chars s))).
    apply chars_inj. rewrite chars_app, list_ascii_of_string_of_list_ascii.
    apply (f_equal chars) in E. rewrite chars_substring in E.
    by rewrite <- E, take_drop.
  - intros [r ->]. rewrite string_app_length. split; [lia|].
    replace (String.length r + String.length p - String.length p)%nat
      with (String.length r) by lia.
    apply substring_app.
Qed.



Lemma includes_mid pre x post : includes (pre +:+ x +:+ post) x.
Proof. by exists pre, post. Qed.

End Strings.

(** ** White space and splitting *)

Section Splitting.
Import Spec.

Lemma chars_rev_app s t : chars (String.rev_app s t) = rev_append (chars s) (chars t).
Proof. revert t. induction s as [|c s IH]; intros t; simpl; [done | by rewrite IH]. Qed.

Lemma chars_rev s : chars (String.rev s) = reverse (chars s).
Proof. apply chars_rev_app. Qed.

Lemma string_rev_nil s : String.rev s = "" ↔ s = "".
Proof.
  split; [|by intros ->]. intros E. apply (f_equal chars) in E.
  rewrite chars_rev in E. apply (f_equal length) in E.
  rewrite length_reverse in E. by destruct s.
Qed.

Lemma blank_rev s : blank (String.rev s) ↔ blank s.
Proof. unfold blank. by rewrite chars_rev, Forall_reverse. Qed.

Lemma trimStart_nil s : trimStart s = "" ↔ blank s.
Proof.
  unfold blank. induction s as [|c s IH]; simpl.
  - split; [constructor | done].
  - rewrite Forall_cons. destruct (isWhiteSpace c); [|split; [done | by intros []]].
    rewrite IH. tauto.
Qed.

Lemma blank_trimStart s : blank (trimStart s) ↔ blank s.
Proof.
  unfold blank. induction s as [|c s IH]; simpl; [done|].
  destruct (isWhiteSpace c) eqn:Hc; [|done].
  rewrite IH, Forall_cons. tauto.
Qed.

Lemma trim_blank s : trim s = "" ↔ blank s.
Proof.
  unfold trim, trimEnd.
  by rewrite string_rev_nil, trimStart_nil, blank_rev, blank_trimStart.
Qed.

Lemma split_nonempty sep s : split sep s ≠ [].
Proof.
  destruct s as [|c s]; simpl; [done|].
  destruct (Ascii.eqb c sep); [done|]. by destruct (split sep s).
Qed.

Lemma split_free sep f : sep ∉ chars f → split sep f = [f].
Proof.
  induction f as [|c f IH]; simpl; [done|]. intros Hf.
  apply not_elem_of_cons in Hf as [Hc Hf].
  destruct (Ascii.eqb_spec c sep) as [->|_]; [done|]. by rewrite IH.
Qed.

Lemma split_app sep f t :
  sep ∉ chars f → split sep (f +:+ String sep t) = f :: split sep t.
Proof.
  induction f as [|c f IH]; intros Hf.
  - change (split sep (String sep t) = "" :: split sep t). simpl.
    by rewrite Ascii.eqb_refl.
  - apply not_elem_of_cons in Hf as [Hc Hf].
    change (split sep (String c (f +:+ String sep t)) = String c f :: split sep t).
    simpl. destruct (Ascii.eqb_spec c sep) as [->|_]; [done|]. by rewrite IH.
Qed.

Lemma split_pieces_free sep s : Forall (λ f, sep ∉ chars f) (split sep s).
Proof.
  induction s as [|c s IH]; simpl.
  - repeat constructor. apply not_elem_of_nil.
  - destruct (Ascii.eqb_spec c sep) as [->|Hc].
    + constructor; [apply not_elem_of_nil | done].
    + destruct (split sep s) as [|piece pieces].
      * repeat constructor. simpl. rewrite list_elem_of_singleton. congruence.
      * apply Forall_cons in IH as [Hp Hps]. constructor; [|done].
        simpl. rewrite not_elem_of_cons. split; [congruence | done].
Qed.

Lemma concat_split sep s : String.concat (String sep "") (split sep s) = s.
Proof.
  induction s as [|c s IH]; simpl; [done|].
  destruct (Ascii.eqb_spec c sep) as [->|Hc].
  - pose proof (split_nonempty sep s).
    destruct (split sep s) as [|piece pieces]; [done|].
    by rewrite <- IH.
  - destruct (split sep s) as [|piece pieces]; simpl in *; [by subst|].
    rewrite <- IH. by destruct pieces.
Qed.

Lemma split_concat sep fs :
  fs ≠ [] → Forall (λ f, sep ∉ chars f) fs →
  split sep (String.concat (String sep "") fs) = fs.
Proof.
  induction fs as [|f fs IH]; [done|]. intros _ Hfs.
  apply Forall_cons in Hfs as [Hf Hfs]. destruct fs as [|g fs].
  - by apply split_free.
  - change (split sep (f +:+ String sep (String.concat (String sep "") (g :: fs)))
            = f :: g :: fs).
    rewrite split_app by done. by rewrite IH.
Qed.

(** [split] computes the separated pieces of a string. *)
Lemma split_separated sep s fs : split sep s = fs ↔ separated sep s fs.
Proof.
  unfold separated. split.
  - intros <-. split; [apply split_nonempty|].
    split; [by rewrite concat_split | apply split_pieces_free].
  - intros (Hne & -> & Hfs). by apply split_concat.
Qed.

End Splitting.

(** ** The credential loader, line by line *)

Section Loader.
Import Spec GitCookies.

(** The host test of the code is the selection rule of Section 4.1. *)
Lemma hostMatches_spec domain host :
  hostMatches domain host = true ↔ hostMatch domain host.
Proof.
  unfold hostMatches, hostMatch.
  rewrite orb_true_iff, !andb_true_iff, orb_true_iff, negb_true_iff.
  rewrite startsWith_false, startsWith_spec, endsWith_spec, !String.eqb_eq.
  split.
  - intros [[[rest ->] [[sub ->] | ->]] | [Hno ->]].
    + right. exists rest. eauto.
    + right. exists rest. split; [done|]. by left.
    + by left.
  - intros [[Hno ->] | (rest & -> & [-> | [sub ->]])].
    + by right.
    + left. split; [by exists rest|]. by right.
    + left. split; [by exists rest|]. left. by exists sub.
Qed.

Lemma truthy_spec s : truthy s = true ↔ s ≠ "".
Proof. by destruct s. Qed.

(** The first two pieces of a cookie value. *)
Lemma split_limit_pieces value u p :
  split_limit "=" 2 value = [u; p] ↔
  ("="%char ∉ chars u) ∧ ("="%char ∉ chars p)
  ∧ (value = u +:+ "=" +:+ p ∨ ∃ rest, value = u +:+ "=" +:+ p +:+ "=" +:+ rest).
Proof.
  unfold split_limit. split.
  - intros E. pose proof (split_pieces_free "=" value) as Hfree.
    pose proof (concat_split "=" value) as Hcat.
    destruct (split "=" value) as [|u' [|p' tl]]; simplify_eq/=.
    apply Forall_cons in Hfree as [Hu Hfree].
    apply Forall_cons in Hfree as [Hp Hfree].
    do 2 (split; [done|]). destruct tl as [|q tl]; [by left|].
    right. by exists (String.concat "=" (q :: tl)).
  - intros (Hu & Hp & [-> | [rest ->]]).
    + change (u +:+ "=" +:+ p) with (u +:+ String "=" p).
      by rewrite split_app, split_free.
    + change (u +:+ "=" +:+ p +:+ "=" +:+ rest)
        with (u +:+ String "=" (p +:+ String "=" rest)).
      rewrite !split_app by done. simpl. by rewrite take_0.
Qed.

(** What one line gives is what [Spec.yields] says. *)
Lemma scanLine_spec host line u p :
  scanLine host line = Some {| username := u; httpPassword := p |}
  ↔ yields host line u p.
Proof.
  unfold scanLine, yields, comment, tabSeparated.
  rewrite <- trim_blank. split.
  - destruct (startsWith line "#") eqn:Hc; [done|].
    destruct (String.eqb_spec (trim line) "") as [|Hb]; [done|]. simpl.
    apply startsWith_false in Hc.
    destruct (split tab line)
      as [|domain [|f1 [|f2 [|f3 [|f4 [|cookieName [|value [|??]]]]]]]] eqn:Hs;
      try done.
    destruct (hostMatches domain host) eqn:Hm; [|done].
    destruct (String.eqb_spec cookieName "o") as [->|]; [|done]. simpl.
    destruct (split_limit "=" 2 value) as [|u' [|p' [|??]]] eqn:Hv; try done.
    destruct (truthy u') eqn:Hu; [|done].
    destruct (truthy p') eqn:Hp; [|done]. simpl. intros [= -> ->].
    do 2 (split; [done|]). exists domain, f1, f2, f3, f4, value.
    split; [by apply split_separated|].
    split; [by apply hostMatches_spec|].
    apply split_limit_pieces in Hv as (? & ? & ?).
    unfold valuePieces. by rewrite <- !truthy_spec.
  - intros (Hc & Hb & domain & f1 & f2 & f3 & f4 & value & Hs & Hm & Hv).
    apply startsWith_false in Hc. rewrite Hc.
    destruct (String.eqb_spec (trim line) "") as [|_]; [done|]. simpl.
    apply split_separated in Hs. rewrite Hs.
    apply hostMatches_spec in Hm. rewrite Hm. simpl.
    destruct Hv as (Hu & Hp & Hfu & Hfp & Hv).
    assert (split_limit "=" 2 value = [u; p]) as ->
      by (by apply split_limit_pieces).
    apply truthy_spec in Hu, Hp. by rewrite Hu, Hp.
Qed.

(** The scan returns what the first yielding line gives. *)
Lemma scanLines_Some host lines c :
  scanLines host lines = Some c ↔
  ∃ earlier line later,
    lines = earlier ++ line :: later
    ∧ Forall (λ l, scanLine host l = None) earlier
    ∧ scanLine host line = Some c.
Proof.
  induction lines as [|l lines IH]; simpl.
  - split; [done|]. by intros ([|??] & ? & ? & ? & _).
  - destruct (scanLine host l) as [c'|] eqn:Hl.
    + split.
      * intros [= ->]. by exists [], l, lines.
      * intros ([|l' earlier] & line & later & E & Hnone & Hline); simplify_eq/=.
        -- congruence.
        -- apply Forall_cons in Hnone as [? _]. congruence.
    + rewrite IH. split.
      * intros (earlier & line & later & -> & Hnone & Hline).
        exists (l :: earlier), line, later. split; [done|]. split; [|done].
        by constructor.
      * intros ([|l' earlier] & line & later & E & Hnone & Hline); simplify_eq/=.
        apply Forall_cons in Hnone as [_ Hnone].
        by exists earlier, line, later.
Qed.


End Loader.

(** ** The page loop *)

Section PageLoop.
Import Spec GerritApi.
Context {P : Platform}.

Lemma API_FETCH_LIMIT_pos : (0 < API_FETCH_LIMIT)%nat.
Proof. unfold API_FETCH_LIMIT. lia. Qed.

Lemma requests_app e1 e2 : requests (e1 ++ e2) = requests e1 ++ requests e2.
Proof.
  induction e1 as [|e e1 IH]; [done|]. destruct e; simpl; by rewrite ?IH.
Qed.

Lemma filesWritten_app e1 e2 :
  Index.filesWritten (e1 ++ e2) = Index.filesWritten e1 ++ Index.filesWritten e2.
Proof.
  induction e1 as [|e e1 IH]; [done|]. destruct e; simpl; by rewrite ?IH.
Qed.

Lemma requests_request owner afterDate auth st :
  requests (request owner afterDate auth st)
  = [(requestUrl owner afterDate (start st), auth)].
Proof. done. Qed.

(** A page moves the offset by its length, is appended to the accumulator,
    and the loop goes on exactly when the page is full. *)
Lemma onPage_spec st page :
  ∃ line, onPage st page
          = ([Log line],
             {| allChanges := allChanges st ++ page;
                start := start st + length page;
                hasMore := (length page =? API_FETCH_LIMIT)%nat |}).
Proof.
  unfold onPage. pose proof API_FETCH_LIMIT_pos as Hpos.
  destruct page as [|c page].
  - cbn [length]. rewrite app_nil_r, Nat.add_0_r.
    replace (0 <? 0)%nat with false by done.
    replace (0 =? API_FETCH_LIMIT)%nat with false
      by (symmetry; apply Nat.eqb_neq; lia).
    replace (0 =? 0)%nat with true by done.
    destruct (start st =? 0)%nat; cbn [andb negb]; eauto.
  - replace (0 <? length (c :: page))%nat with true
      by (symmetry; apply Nat.ltb_lt; simpl; lia).
    replace (length (c :: page) =? 0)%nat with false by done.
    cbn [andb]. destruct (length (c :: page) =? API_FETCH_LIMIT)%nat;
      cbn [negb]; eauto.
Qed.

Lemma iteration_page out st page :
  servesPage out page →
  ∃ line, iteration out st
          = ([Log line],
             Return {| allChanges := allChanges st ++ page;
                       start := start st + length page;
                       hasMore := (length page =? API_FETCH_LIMIT)%nat |}).
Proof.
  intros (r & -> & Hok & Hdec). unfold iteration, tryPage.
  rewrite Hok, Hdec. cbn [negb].
  destruct (onPage_spec st page) as [line ->]. eauto.
Qed.

Lemma iteration_not_ok r st :
  ok r = false →
  iteration (Responded r) st
  = ([ErrorLog ("Error fetching changes from Gerrit API: "
                +:+ toString (newError (apiErrorMessage r)))],
     Throw (newError (apiErrorMessage r))).
Proof. intros Hok. unfold iteration, tryPage. by rewrite Hok. Qed.

(** No pass through the loop body issues a request of its own or writes a
    file. *)
Lemma iteration_quiet out st :
  requests (iteration out st).1 = [] ∧ Index.filesWritten (iteration out st).1 = [].
Proof.
  unfold iteration, tryPage. destruct out as [e|r]; [done|].
  destruct (ok r); [|done]. cbn [negb].
  destruct (decode (text r)) as [page|e]; [|done].
  by destruct (onPage_spec st page) as [line ->].
Qed.

Lemma loop_done owner afterDate auth net st :
  hasMore st = false →
  loop owner afterDate auth net st
  = ([Log ("Total merged changes fetched across all pages: "
           +:+ pretty (length (allChanges st)))],
     Some (Return (allChanges st))).
Proof. intros H. destruct net; cbn [loop]; by rewrite H. Qed.

Lemma loop_cons owner afterDate auth out net st :
  hasMore st = true →
  loop owner afterDate auth (out :: net) st
  = match iteration out st with
    | (events, Throw e) =>
        (request owner afterDate auth st ++ events, Some (Throw e))
    | (events, Return st') =>
        let '(events', r) := loop owner afterDate auth net st' in
        (request owner afterDate auth st ++ events ++ events', r)
    end.
Proof. intros H. cbn [loop]. by rewrite H. Qed.

Lemma offsets_app k pages pages' :
  offsets k (pages ++ pages')
  = offsets k pages ++ offsets (k + length (concat pages)) pages'.
Proof.
  revert k. induction pages as [|page pages IH]; intros k; cbn [app offsets concat].
  - by rewrite Nat.add_0_r.
  - by rewrite IH, length_app, Nat.add_assoc.
Qed.

Lemma offsets_length k pages : length (offsets k pages) = length pages.
Proof. revert k. induction pages as [|?? IH]; intros k; simpl; [done | by rewrite IH]. Qed.

Lemma concat_full_length (pages : list (list ChangeInfo.t)) :
  Forall (λ page, length page = API_FETCH_LIMIT) pages →
  length (concat pages) = (API_FETCH_LIMIT * length pages)%nat.
Proof.
  induction 1 as [|page pages Hlen _ IH]; cbn [concat length]; [lia|].
  rewrite length_app, IH, Hlen. lia.
Qed.

(** Full pages keep the loop going: one request per page, at the offset
    where the page begins, and the loop is back at its head. *)
Lemma loop_full_pages owner afterDate auth outs pages st :
  hasMore st = true →
  Forall2 servesPage outs pages →
  Forall (λ page, length page = API_FETCH_LIMIT) pages →
  ∃ events,
    requests events
    = (λ k, (requestUrl owner afterDate k, auth)) <$> offsets (start st) pages
    ∧ Index.filesWritten events = []
    ∧ ∀ net,
        loop owner afterDate auth (outs ++ net) st
        = (events ++ (loop owner afterDate auth net (after st pages)).1,
           (loop owner afterDate auth net (after st pages)).2).
Proof.
  intros Hmore Hserve. revert st Hmore.
  induction Hserve as [|o page outs pages Ho _ IH]; intros st Hmore Hfull.
  - exists []. do 2 (split; [done|]). intros net.
    replace (after st []) with st;
      [cbn [app]; by destruct (loop owner afterDate auth net st)|].
    unfold after. destruct st; cbn in *. by rewrite app_nil_r, Nat.add_0_r, Hmore.
  - apply Forall_cons in Hfull as [Hlen Hfull].
    destruct (iteration_page o st page Ho) as [line Hit].
    set (st' := {| allChanges := allChanges st ++ page |}) in Hit.
    destruct (IH st') as (events & Hreq & Hfiles & Hloop); [|done|].
    { cbn [st' hasMore]. by apply Nat.eqb_eq. }
    exists (request owner afterDate auth st ++ [Log line] ++ events).
    split; [|split].
    + rewrite requests_app, requests_request. cbn [requests app offsets fmap list_fmap].
      by rewrite Hreq.
    + done.
    + intros net. cbn [app]. rewrite loop_cons, Hit, Hloop by done.
      replace (after st' pages) with (after st (page :: pages)).
      * by rewrite <- !app_assoc.
      * unfold after. cbn [st' allChanges start concat].
        by rewrite length_app, !app_assoc, Nat.add_assoc.
Qed.

(** The first short page ends the loop. *)
Lemma loop_pages owner afterDate auth outs pages out short rest st :
  hasMore st = true →
  Forall2 servesPage outs pages →
  Forall (λ page, length page = API_FETCH_LIMIT) pages →
  servesPage out short →
  (length short < API_FETCH_LIMIT)%nat →
  ∃ events,
    loop owner afterDate auth (outs ++ out :: rest) st
    = (events, Some (Return (allChanges st ++ concat pages ++ short)))
    ∧ requests events
      = (λ k, (requestUrl owner afterDate k, auth))
          <$> offsets (start st) (pages ++ [short])
    ∧ Index.filesWritten events = [].
Proof.
  intros Hmore Hserve Hfull Hout Hshort.
  destruct (loop_full_pages owner afterDate auth outs pages st)
    as (events & Hreq & Hfiles & ->); [done..|].
  rewrite loop_cons by done.
  destruct (iteration_page out (after st pages) short Hout) as [line ->].
  rewrite loop_done by (cbn [hasMore]; apply Nat.eqb_neq; lia).
  eexists. split; [|split].
  - cbn [fst snd after allChanges]. by rewrite <- app_assoc.
  - rewrite requests_app, Hreq, offsets_app, fmap_app. done.
  - cbn [fst]. by rewrite filesWritten_app, Hfiles.
Qed.

(** A response that is not [ok] ends the loop with an error. *)
Lemma loop_pages_error owner afterDate auth outs pages r rest st :
  hasMore st = true →
  Forall2 servesPage outs pages →
  Forall (λ page, length page = API_FETCH_LIMIT) pages →
  ok r = false →
  ∃ events,
    loop owner afterDate auth (outs ++ Responded r :: rest) st
    = (events, Some (Throw (newError (apiErrorMessage r))))
    ∧ length (requests events) = S (length pages)
    ∧ Index.filesWritten events = [].
Proof.
  intros Hmore Hserve Hfull Hok.
  destruct (loop_full_pages owner afterDate auth outs pages st)
    as (events & Hreq & Hfiles & ->); [done..|].
  rewrite loop_cons, iteration_not_ok by done.
  eexists. split; [done|]. split.
  - cbn [fst]. rewrite !requests_app, Hreq, !length_app, length_fmap, offsets_length.
    cbn. lia.
  - cbn [fst]. by rewrite filesWritten_app, Hfiles.
Qed.

End PageLoop.

(** ** The invariant of the page loop *)

Section LoopInvariant.
Import Spec GerritApi.
Context {P : Platform}.

Lemma iteration_Return out st events st' :
  iteration out st = (events, Return st') →
  ∃ page, servesPage out page
          ∧ allChanges st' = allChanges st ++ page
          ∧ start st' = (start st + length page)%nat.
Proof.
  unfold iteration, tryPage. destruct out as [e|r]; [done|].
  destruct (ok r) eqn:Hok; [|done]. cbn [negb].
  destruct (decode (text r)) as [page|e] eqn:Hdec; [|done].
  destruct (onPage_spec st page) as [line ->]. intros [= <- <-].
  exists page. split; [by exists r | done].
Qed.

Lemma reaches_invariant st outs st' :
  reaches st outs st' →
  start st = length (allChanges st) →
  start st' = length (allChanges st').
Proof.
  induction 1 as [|st out events st' outs st'' _ Hit _ IH]; [done|].
  intros Hinv. apply IH.
  apply iteration_Return in Hit as (page & _ & -> & ->).
  rewrite length_app. lia.
Qed.

(** The request number [i] is issued at the head of the loop that the first
    [i] outcomes lead to, with the offset of that state. *)
Lemma loop_requests owner afterDate auth net st0 i url auth' :
  requests (loop owner afterDate auth net st0).1 !! i = Some (url, auth') →
  ∃ st, reaches st0 (take i net) st ∧ hasMore st = true
        ∧ url = requestUrl owner afterDate (start st).
Proof.
  revert st0 i. induction net as [|out net IH]; intros st0 i.
  - destruct (hasMore st0) eqn:Hmore; cbn [loop]; rewrite Hmore; [|done].
    destruct i as [|i]; [|done]. intros [= <- <-].
    exists st0. split; [constructor | done].
  - destruct (hasMore st0) eqn:Hmore; [|by rewrite loop_done].
    rewrite loop_cons by done.
    pose proof (iteration_quiet out st0) as [Hquiet _].
    destruct (iteration out st0) as [events [st'|e]] eqn:Hit; cbn [fst] in Hquiet.
    + destruct (loop owner afterDate auth net st') as [events' r] eqn:Hloop.
      cbn [fst]. rewrite !requests_app, Hquiet, requests_request.
      destruct i as [|i].
      * intros [= <- <-]. exists st0. split; [constructor | done].
      * cbn [app lookup list_lookup]. intros Hi.
        destruct (IH st' i) as (st & Hreach & Hst & ->).
        { by rewrite Hloop. }
        exists st. split; [|done]. cbn [take]. by econstructor.
    + cbn [fst]. rewrite requests_app, Hquiet, requests_request.
      destruct i as [|i]; [|done]. intros [= <- <-].
      exists st0. split; [constructor | done].
Qed.

End LoopInvariant.

(** ** Properties of the fetcher *)

Section Fetcher.
Import Spec GitCookies GerritApi Index.

(** C1. One request per page, and the loop stops after the first short
    page: when the server returns full pages [pages] and then a page [short]
    of fewer than [API_FETCH_LIMIT] changes (an empty one included), the
    fetch ends without error, returns the changes of all these pages in the
    order the server gave them, and has issued one request per page, whatever
    outcomes [rest] would have followed. Two full pages and [k] changes give
    three requests and [API_FETCH_LIMIT * 2 + k] changes; one full page and
    an empty page give two requests. *)
Theorem fetch_one_request_per_page `{Platform}
    owner afterDate user password outs pages out short rest :
  Forall2 servesPage outs pages →
  Forall (λ page, length page = API_FETCH_LIMIT) pages →
  servesPage out short →
  (length short < API_FETCH_LIMIT)%nat →
  ∃ events changes,
    fetchMergedChanges owner afterDate user password (outs ++ out :: rest)
    = (events, Some (Return changes))
    ∧ changes = concat pages ++ short
    ∧ length changes = (API_FETCH_LIMIT * length pages + length short)%nat
    ∧ length (requests events) = S (length pages).
Proof.
  intros Hserve Hfull Hout Hshort. unfold fetchMergedChanges.
  destruct (loop_pages owner afterDate (authHeader user password)
              outs pages out short rest initial) as (events & -> & Hreq & _);
    [done..|].
  eexists _, (concat pages ++ short). split; [done|]. split; [done|]. split.
  - by rewrite length_app, concat_full_length.
  - cbn [requests]. rewrite Hreq, length_fmap, offsets_length, length_app.
    cbn [length]. lia.
Qed.

(** C6. A response whose status is not a success makes the fetch throw at
    once an error whose message carries the status code and the body of the
    response; no further request is issued, the changes of the earlier pages
    are not returned, and [main] exits with status 1 without writing the
    output file. *)
Theorem http_error_aborts_fetch `{Platform}
    owner afterDate user password outs pages r rest :
  Forall2 servesPage outs pages →
  Forall (λ page, length page = API_FETCH_LIMIT) pages →
  ok r = false →
  (∃ events,
     fetchMergedChanges owner afterDate user password (outs ++ Responded r :: rest)
     = (events, Some (Throw (newError (apiErrorMessage r))))
     ∧ length (requests events) = S (length pages)
     ∧ filesWritten events = [])
  ∧ includes (apiErrorMessage r) (pretty (status r))
  ∧ includes (apiErrorMessage r) (text r)
  ∧ ∀ W, network W = outs ++ Responded r :: rest →
         ∃ events, main W = (events, Exited 1) ∧ filesWritten events = [].
Proof.
  intros Hserve Hfull Hok.
  assert (∀ o d u p, ∃ events,
            fetchMergedChanges o d u p (outs ++ Responded r :: rest)
            = (events, Some (Throw (newError (apiErrorMessage r))))
            ∧ length (requests events) = S (length pages)
            ∧ filesWritten events = []) as Hfetch.
  { intros o d u p. unfold fetchMergedChanges.
    destruct (loop_pages_error o d (authHeader u p) outs pages r rest initial)
      as (events & -> & Hreq & Hfiles); [done..|].
    eexists. split; [done|]. by split. }
  split; [apply Hfetch|]. split; [|split].
  - unfold apiErrorMessage. by exists "Gerrit API error: ", (" - " +:+ statusText r +:+ nl
      +:+ "Response body: " +:+ text r).
  - unfold apiErrorMessage.
    exists ("Gerrit API error: " +:+ pretty (status r) +:+ " - " +:+ statusText r
            +:+ nl +:+ "Response body: "), "".
    by rewrite string_app_nil_r, !string_app_assoc.
  - intros W HW. unfold main.
    destruct (getGerritCredentials W GERRIT_SERVER_URL) as [c|e]; [|by eexists].
    rewrite HW.
    destruct (Hfetch CL_OWNER
                (format (subDays (clock1 W) DAYS_TO_LOOK_BACK) "yyyy-MM-dd")
                (username c) (httpPassword c)) as (events & -> & _ & Hfiles).
    eexists. split; [done|].
    by rewrite !filesWritten_app, Hfiles.
Qed.

(** C9. A body that begins with the marker [)]}'] followed by a newline is
    parsed without the four characters of the marker; any other body is
    parsed as it is. When the parser skips a leading newline, as JSON white
    space, the page is that of the text after marker and newline. *)
Theorem marker_stripped_before_parsing `{Platform} :
  (∀ rest, decode (")]}'" +:+ nl +:+ rest) = JSON_parse (nl +:+ rest))
  ∧ (∀ body, ¬ (∃ rest, body = ")]}'" +:+ nl +:+ rest) →
             decode body = JSON_parse body)
  ∧ ((∀ s, JSON_parse (nl +:+ s) = JSON_parse s) →
     ∀ rest, decode (")]}'" +:+ nl +:+ rest) = JSON_parse rest).
Proof.
  assert (∀ rest, decode (")]}'" +:+ nl +:+ rest) = JSON_parse (nl +:+ rest)) as Hstrip.
  { intros rest. unfold decode, jsonText.
    assert (startsWith (")]}'" +:+ nl +:+ rest) (")]}'" +:+ nl) = true) as ->.
    { apply startsWith_spec. exists rest. by rewrite !string_app_assoc. }
    done. }
  split; [done|]. split.
  - intros body Hno. unfold decode, jsonText.
    assert (startsWith body (")]}'" +:+ nl) = false) as ->; [|done].
    apply startsWith_false. intros [rest ->]. apply Hno. exists rest.
    by rewrite !string_app_assoc.
  - intros Hskip rest. by rewrite Hstrip, Hskip.
Qed.

(** C10. The invariant of the page loop: at the head of the loop the offset
    [start] is the number of changes accumulated, so the request number [i]
    of a fetch carries as [S] the number of changes that the first [i]
    responses brought. *)
Theorem offset_is_number_fetched `{Platform} owner afterDate user password net :
  (∀ outs st, reaches initial outs st → start st = length (allChanges st))
  ∧ (∀ i url auth,
       requests (fetchMergedChanges owner afterDate user password net).1 !! i
       = Some (url, auth) →
       ∃ st, reaches initial (take i net) st ∧ hasMore st = true
             ∧ start st = length (allChanges st)
             ∧ url = requestUrl owner afterDate (length (allChanges st))).
Proof.
  split.
  - intros outs st Hreach. by apply (reaches_invariant initial outs).
  - intros i url auth. unfold fetchMergedChanges.
    destruct (loop owner afterDate (authHeader user password) net initial)
      as [events r] eqn:Hloop.
    cbn [fst requests]. intros Hi.
    destruct (loop_requests owner afterDate (authHeader user password)
                net initial i url auth) as (st & Hreach & Hmore & ->).
    { by rewrite Hloop. }
    pose proof (reaches_invariant _ _ _ Hreach eq_refl) as Hinv.
    exists st. by rewrite <- Hinv.
Qed.

End Fetcher.

(** ** The fetcher on sample responses *)

Section FetcherSamples.
Import Spec GitCookies GerritApi Index Samples.

Lemma okResponse_serves body :
  servesPage (H:=platform) (okResponse body) (changesOf body).
Proof. eexists. split; [done|]. split; [done|]. done. Qed.

Lemma fullPage_length : length (changesOf fullPage) = API_FETCH_LIMIT.
Proof. by vm_compute. Qed.

Lemma fetch_one_request_per_page_witness :
  ∃ events changes,
    fetchMergedChanges (P:=platform) CL_OWNER "2024-01-01" "user" "token"
      ([okResponse fullPage; okResponse fullPage] ++ okResponse "123" :: [])
    = (events, Some (Return changes))
    ∧ changes = concat [changesOf fullPage; changesOf fullPage] ++ changesOf "123"
    ∧ length changes = (API_FETCH_LIMIT * 2 + 3)%nat
    ∧ length (requests events) = 3%nat.
Proof.
  apply (@fetch_one_request_per_page platform CL_OWNER "2024-01-01" "user" "token"
           [okResponse fullPage; okResponse fullPage]
           [changesOf fullPage; changesOf fullPage]
           (okResponse "123") (changesOf "123") []).
  - repeat constructor; apply okResponse_serves.
  - repeat constructor; apply fullPage_length.
  - apply okResponse_serves.
  - vm_compute. lia.
Defined.

(** A result set of exactly one page: the empty second page ends the loop. *)
Example fetch_exact_multiple :
  ∃ events,
    fetchMergedChanges (P:=platform) CL_OWNER "2024-01-01" "user" "token"
      [okResponse fullPage; okResponse ""]
    = (events, Some (Return (changesOf fullPage)))
    ∧ length (requests events) = 2%nat.
Proof. eexists. split; by vm_compute. Qed.

Lemma http_error_aborts_fetch_witness :
  (∃ events,
     fetchMergedChanges (P:=platform) CL_OWNER "2024-01-01" "user" "token"
       ([okResponse fullPage] ++ Responded forbidden :: [okResponse "123"])
     = (events, Some (Throw (newError (apiErrorMessage forbidden))))
     ∧ length (requests events) = 2%nat
     ∧ filesWritten events = [])
  ∧ includes (apiErrorMessage forbidden) "403"
  ∧ includes (apiErrorMessage forbidden) "Authentication required"
  ∧ ∀ W, network W = [okResponse fullPage] ++ Responded forbidden :: [okResponse "123"] →
         ∃ events, main (P:=platform) W = (events, Exited 1)
                   ∧ filesWritten events = [].
Proof.
  apply (@http_error_aborts_fetch platform CL_OWNER "2024-01-01" "user" "token"
           [okResponse fullPage] [changesOf fullPage] forbidden [okResponse "123"]).
  - repeat constructor; apply okResponse_serves.
  - repeat constructor; apply fullPage_length.
  - reflexivity.
Defined.

Lemma marker_stripped_before_parsing_witness :
  decode (P:=platform) (")]}'" +:+ nl +:+ "[12") = Return (changesOf "12")
  ∧ decode (P:=platform) "[12" = Return (changesOf "12").
Proof.
  destruct (@marker_stripped_before_parsing platform) as (_ & Hplain & Hskip).
  split.
  - rewrite Hskip; [reflexivity|]. intros s. reflexivity.
  - rewrite Hplain; [reflexivity|]. intros [rest E]. discriminate E.
Defined.

Lemma offset_is_number_fetched_witness :
  ∃ st, reaches (H:=platform) initial [okResponse fullPage] st
        ∧ hasMore st = true
        ∧ start st = length (allChanges st)
        ∧ requestUrl CL_OWNER "2024-01-01" 500
          = requestUrl CL_OWNER "2024-01-01" (length (allChanges st)).
Proof.
  apply (proj2 (@offset_is_number_fetched platform CL_OWNER "2024-01-01" "user" "token"
                  [okResponse fullPage; okResponse "123"])
           1%nat _ (authHeader (P:=platform) "user" "token")).
  by vm_compute.
Defined.

End FetcherSamples.

(** ** Properties of the credential loader *)

Section CredentialLoader.
Import Spec GitCookies.



Lemma includes_skip a m x : includes m x → includes (a +:+ m) x.
Proof.
  intros (pre & post & ->). exists (a +:+ pre), post.
  by rewrite !string_app_assoc.
Qed.




Lemma scanLine_yields host line :
  (∃ c, scanLine host line = Some c) ↔ ∃ u p, yields host line u p.
Proof.
  split.
  - intros [[u p] Hc]. exists u, p. by apply scanLine_spec.
  - intros (u & p & Hy). eexists. by apply scanLine_spec.
Qed.

Lemma scanLine_None host line :
  scanLine host line = None ↔ ¬ ∃ u p, yields host line u p.
Proof.
  rewrite <- scanLine_yields. destruct (scanLine host line) as [c|].
  - split; [done|]. intros []. by exists c.
  - split; [|done]. by intros _ [c ?].
Qed.

(** C2. The host test of the loader is the rule of [Spec.hostMatch]: a
    pattern without leading dot matches exactly the host it equals; a pattern
    with leading dot matches exactly the host it equals once the dot is
    stripped and the hosts that end with it. The credential the loader returns
    comes from a line of the secrets file that is no comment, is not blank,
    has exactly seven tab-separated fields, and whose domain-pattern matches
    the target host. *)
Theorem credential_only_from_matching_record `{Platform} :
  (∀ domain host, hostMatches domain host = true ↔ hostMatch domain host)
  ∧ ∀ W url c,
      getGerritCredentials W url = Return c →
      ∃ host content line,
        URL_hostname url = Some host
        ∧ readFileSync W gitcookiesPath = Return content
        ∧ line ∈ split lf content
        ∧ scanLine host line = Some c
        ∧ ¬ comment line
        ∧ ¬ blank line
        ∧ ∃ domain f1 f2 f3 f4 cookieName cookieValue,
            tabSeparated line [domain; f1; f2; f3; f4; cookieName; cookieValue]
            ∧ hostMatches domain host = true
            ∧ hostMatch domain host.
Proof.
  split; [apply hostMatches_spec|]. intros W url c.
  unfold getGerritCredentials.
  destruct (URL_hostname url) as [host|]; [|done].
  destruct (existsSync W gitcookiesPath); [|done]. cbn [negb].
  destruct (readFileSync W gitcookiesPath) as [content|]; [|done].
  destruct (scanLines host (split lf content)) as [c'|] eqn:Hscan; [|done].
  intros [= ->].
  apply scanLines_Some in Hscan as (earlier & line & later & Hlines & _ & Hline).
  exists host, content, line. do 2 (split; [done|]).
  split; [rewrite Hlines; set_solver|]. split; [done|].
  destruct c as [u p].
  apply scanLine_spec in Hline
    as (Hc & Hb & domain & f1 & f2 & f3 & f4 & value & Hs & Hm & _).
  do 2 (split; [done|]). exists domain, f1, f2, f3, f4, "o", value.
  split; [done|]. split; [by apply hostMatches_spec | done].
Qed.

(** C3, amended. Among the records for the target host with cookie-name [o]
    the loader passes over those from which it takes no credential and
    returns what the first remaining one gives: for a value [u=t] with [u]
    and [t] non-empty and without [=], the username [u] and the token [t]. *)
Theorem loader_returns_first_usable_record `{Platform}
    W url host content earlier line later domain f1 f2 f3 f4 u t :
  URL_hostname url = Some host →
  existsSync W gitcookiesPath = true →
  readFileSync W gitcookiesPath = Return content →
  split lf content = earlier ++ line :: later →
  Forall (λ l, ¬ ∃ u' t', yields host l u' t') earlier →
  ¬ comment line →
  ¬ blank line →
  tabSeparated line [domain; f1; f2; f3; f4; "o"; u +:+ "=" +:+ t] →
  hostMatch domain host →
  u ≠ "" → t ≠ "" → ("="%char ∉ chars u) → ("="%char ∉ chars t) →
  getGerritCredentials W url = Return {| username := u; httpPassword := t |}.
Proof.
  intros Hhost Hexists Hread Hlines Hearlier Hc Hb Hs Hm Hu Ht Hfu Hft.
  unfold getGerritCredentials. rewrite Hhost, Hexists, Hread. cbn [negb].
  assert (scanLines host (split lf content)
          = Some {| username := u; httpPassword := t |}) as ->; [|done].
  apply scanLines_Some. exists earlier, line, later. split; [done|]. split.
  - eapply Forall_impl; [exact Hearlier|]. intros l Hl. by apply scanLine_None.
  - apply scanLine_spec. do 2 (split; [done|]).
    exists domain, f1, f2, f3, f4, (u +:+ "=" +:+ t).
    do 2 (split; [done|]). unfold valuePieces. do 4 (split; [done|]). by left.
Qed.


End CredentialLoader.

(** ** The credential loader on sample files *)

Section CredentialLoaderSamples.
Import Spec GitCookies Samples.

Lemma credential_only_from_matching_record_witness :
  ∃ host content line,
    URL_hostname (Platform := platform) GERRIT_SERVER_URL = Some host
    ∧ readFileSync (world (Some cookies) 0 []) (gitcookiesPath (Platform := platform))
      = Return content
    ∧ line ∈ split lf content
    ∧ scanLine host line
      = Some {| username := "git-user.example.com"; httpPassword := "1//0secret" |}
    ∧ ¬ comment line
    ∧ ¬ blank line
    ∧ ∃ domain f1 f2 f3 f4 cookieName cookieValue,
        tabSeparated line [domain; f1; f2; f3; f4; cookieName; cookieValue]
        ∧ hostMatches domain host = true
        ∧ hostMatch domain host.
Proof.
  apply (proj2 (@credential_only_from_matching_record platform)
           (world (Some cookies) 0 []) GERRIT_SERVER_URL).
  reflexivity.
Defined.

Lemma loader_returns_first_usable_record_witness :
  getGerritCredentials (P := platform) (world (Some cookies) 0 []) GERRIT_SERVER_URL
  = Return {| username := "git-user.example.com"; httpPassword := "1//0secret" |}.
Proof.
  apply (@loader_returns_first_usable_record platform
           (world (Some cookies) 0 []) GERRIT_SERVER_URL host cookies
           ["# Netscape HTTP Cookie File"; ""; "malformed line";
            record "example.com" "o" "other=1//no"]
           (record ".googlesource.com" "o" "git-user.example.com=1//0secret")
           [""]
           ".googlesource.com" "TRUE" "/" "TRUE" "2147483647"
           "git-user.example.com" "1//0secret").
  - reflexivity.
  - reflexivity.
  - reflexivity.
  - reflexivity.
  - repeat constructor; apply scanLine_None; reflexivity.
  - intros [rest E]. discriminate E.
  - intros Hb. apply trim_blank in Hb. discriminate Hb.
  - apply split_separated. reflexivity.
  - apply hostMatches_spec. reflexivity.
  - discriminate.
  - discriminate.
  - rewrite list_elem_of_In. vm_compute. intuition discriminate.
  - rewrite list_elem_of_In. vm_compute. intuition discriminate.
Defined.

(** C3 as stated fails: the first record for the host with cookie-name [o]
    has the value [alice=], of the form [u=t] with an empty [t]; the loader
    passes it over and returns what the second record gives. *)
Lemma first_record_with_empty_token_not_selected :
  split lf cookiesEmptyToken
  = [record host "o" ("alice" +:+ "=" +:+ ""); record host "o" "bob=secret"; ""]
  ∧ hostMatch host host
  ∧ scanLine host (record host "o" ("alice" +:+ "=" +:+ "")) = None
  ∧ getGerritCredentials (P := platform) (world (Some cookiesEmptyToken) 0 [])
      GERRIT_SERVER_URL
    = Return {| username := "bob"; httpPassword := "secret" |}
  ∧ getGerritCredentials (P := platform) (world (Some cookiesEmptyToken) 0 [])
      GERRIT_SERVER_URL
    ≠ Return {| username := "alice"; httpPassword := "" |}.
Proof.
  split; [reflexivity|]. split; [by apply hostMatches_spec|].
  split; [reflexivity|]. split; [reflexivity|]. discriminate.
Qed.

(** The limit of [split('=', 2)] drops what follows the second piece: a
    token with an [=] in it is cut there. *)
Example token_cut_at_second_equals :
  getGerritCredentials (P := platform) (world (Some cookiesTokenWithEquals) 0 [])
    GERRIT_SERVER_URL
  = Return {| username := "user"; httpPassword := "pa" |}.
Proof. reflexivity. Qed.



End CredentialLoaderSamples.

(** ** The stable sort *)

Section StableSort.
Import Spec.
Context {A : Type} (comparefn : A → A → option Z) (key : A → Z).

Lemma insertBy_perm x l : insertBy comparefn x l ≡ₚ x :: l.
Proof.
  induction l as [|y l IH]; simpl; [done|].
  destruct (before comparefn x y); [done|]. by rewrite IH, Permutation_swap.
Qed.

Lemma Array_sort_perm l : Array_sort comparefn l ≡ₚ l.
Proof.
  induction l as [|x l IH]; simpl; [done|]. by rewrite insertBy_perm, IH.
Qed.

Lemma insertBy_sorted x l :
  (∀ y, y ∈ l → before comparefn x y = bool_decide (key y ≤ key x)%Z) →
  StronglySorted (λ a b, (key b ≤ key a)%Z) l →
  StronglySorted (λ a b, (key b ≤ key a)%Z) (insertBy comparefn x l).
Proof.
  intros Hx Hl. induction Hl as [|y l Hl IH Hy]; simpl.
  - repeat constructor.
  - rewrite (Hx y) by set_solver. case_bool_decide as Hxy.
    + constructor; [by constructor|]. constructor; [done|].
      eapply Forall_impl; [exact Hy|]. intros z Hz. simpl in *. lia.
    + constructor.
      * apply IH. intros z Hz. apply Hx. set_solver.
      * rewrite insertBy_perm. constructor; [lia | done].
Qed.

Lemma insertBy_filter t x l :
  (∀ y, y ∈ l → before comparefn x y = bool_decide (key y ≤ key x)%Z) →
  filter (λ a, key a = t) (insertBy comparefn x l)
  = filter (λ a, key a = t) (x :: l).
Proof.
  induction l as [|y l IH]; intros Hx; simpl; [done|].
  rewrite (Hx y) by set_solver. case_bool_decide as Hxy; [done|].
  rewrite filter_cons, IH by (intros z Hz; apply Hx; set_solver).
  rewrite !(filter_cons _ x), !(filter_cons _ y).
  repeat case_decide; try done. lia.
Qed.

Lemma Array_sort_sorted l :
  byDecreasingKey comparefn key l →
  StronglySorted (λ a b, (key b ≤ key a)%Z) (Array_sort comparefn l).
Proof.
  induction l as [|x l IH]; intros Hl; simpl; [constructor|].
  apply insertBy_sorted.
  - intros y Hy. apply Hl; [set_solver|].
    rewrite Array_sort_perm in Hy. set_solver.
  - apply IH. intros y z Hy Hz. apply Hl; set_solver.
Qed.

Lemma Array_sort_stable t l :
  byDecreasingKey comparefn key l →
  filter (λ a, key a = t) (Array_sort comparefn l) = filter (λ a, key a = t) l.
Proof.
  induction l as [|x l IH]; intros Hl; simpl; [done|].
  rewrite insertBy_filter.
  - rewrite !(filter_cons _ x), IH; [done|].
    intros y z Hy Hz. apply Hl; set_solver.
  - intros y Hy. apply Hl; [set_solver|].
    rewrite Array_sort_perm in Hy. set_solver.
Qed.

End StableSort.

(** ** Properties of the renderer *)

Section Renderer.
Import Spec GitCookies GerritApi Index.

Lemma warnings_app e1 e2 : warnings (e1 ++ e2) = warnings e1 ++ warnings e2.
Proof.
  induction e1 as [|e e1 IH]; [done|]. destruct e; simpl; by rewrite ?IH.
Qed.

Lemma eventsOf_app `{Platform} cs1 cs2 :
  eventsOf (cs1 ++ cs2) = eventsOf cs1 ++ eventsOf cs2.
Proof.
  induction cs1 as [|c cs1 IH]; [done|].
  cbn [app eventsOf foldr]. fold (eventsOf (cs1 ++ cs2)) (eventsOf cs1).
  by rewrite IH, app_assoc.
Qed.

Lemma sectionsOf_app `{Platform} cs1 cs2 :
  sectionsOf (cs1 ++ cs2) = sectionsOf cs1 +:+ sectionsOf cs2.
Proof.
  induction cs1 as [|c cs1 IH]; [done|].
  cbn [app sectionsOf foldr]. fold (sectionsOf (cs1 ++ cs2)) (sectionsOf cs1).
  by rewrite IH, string_app_assoc.
Qed.

(** The loop appends the section of every change, in order, and logs the
    warnings of the changes without commit message. *)
Lemma renderChanges_spec `{Platform} changes markdownContent :
  renderChanges changes markdownContent
  = (eventsOf changes, markdownContent +:+ sectionsOf changes).
Proof.
  revert markdownContent. induction changes as [|c cs IH]; intros md.
  - cbn. by rewrite string_app_nil_r.
  - cbn [renderChanges]. destruct (renderChange c) as [events section] eqn:Hc.
    rewrite IH. cbn [sectionsOf eventsOf foldr]. rewrite Hc.
    fold (sectionsOf cs) (eventsOf cs). by rewrite string_app_assoc.
Qed.

Lemma buildDocument_nonempty `{Platform} now changes :
  changes ≠ [] →
  buildDocument now changes
  = (eventsOf (Array_sort comparefn changes),
     documentHeader now +:+ sectionsOf (Array_sort comparefn changes)).
Proof.
  intros Hne. unfold buildDocument. destruct changes; [done|].
  cbn [length Nat.eqb]. apply renderChanges_spec.
Qed.

Lemma comparefn_byDecreasingKey `{Platform} changes (ts : ChangeInfo.t → Z) :
  (∀ c, c ∈ changes → Date_getTime (ChangeInfo.submitted c) = Some (ts c)) →
  byDecreasingKey comparefn ts changes.
Proof.
  intros Hts a b Ha Hb. unfold before, comparefn.
  rewrite (Hts a Ha), (Hts b Hb).
  destruct (Z.leb_spec (ts b - ts a) 0); case_bool_decide; (done || lia).
Qed.

(** C4. For a non-empty set of changes whose submission times the runtime
    reads as [ts], the document is the header followed by the sections of
    the changes in an order that is a rearrangement of the fetched sequence,
    non-increasing in submission time (every section comes before those of
    earlier or equal time), and stable (the changes of any one time keep
    their fetched order). *)
Theorem sections_sorted_by_submission_time `{Platform}
    now changes (ts : ChangeInfo.t → Z) :
  changes ≠ [] →
  (∀ c, c ∈ changes → Date_getTime (ChangeInfo.submitted c) = Some (ts c)) →
  ∃ order,
    (buildDocument now changes).2 = documentHeader now +:+ sectionsOf order
    ∧ order ≡ₚ changes
    ∧ StronglySorted (λ a b, (ts b ≤ ts a)%Z) order
    ∧ ∀ t, filter (λ c, ts c = t) order = filter (λ c, ts c = t) changes.
Proof.
  intros Hne Hts. exists (Array_sort comparefn changes).
  apply (comparefn_byDecreasingKey changes ts) in Hts.
  split; [by rewrite buildDocument_nonempty|].
  split; [apply Array_sort_perm|].
  split; [by apply Array_sort_sorted|].
  intros t. by apply Array_sort_stable.
Qed.

Lemma eventsOf_no_files `{Platform} changes : filesWritten (eventsOf changes) = [].
Proof.
  induction changes as [|c cs IH]; [done|].
  cbn [eventsOf foldr]. fold (eventsOf cs). rewrite filesWritten_app, IH.
  unfold renderChange. by destruct (currentCommit c).
Qed.

Lemma loop_no_files `{Platform} owner afterDate auth net st :
  filesWritten (loop owner afterDate auth net st).1 = [].
Proof.
  revert st. induction net as [|out net IH]; intros st.
  - cbn [loop]. by destruct (hasMore st).
  - destruct (hasMore st) eqn:Hmore; [|by rewrite loop_done].
    rewrite loop_cons by done.
    pose proof (iteration_quiet out st) as [_ Hquiet].
    destruct (iteration out st) as [events [st'|e]]; cbn [fst] in Hquiet.
    + specialize (IH st'). destruct (loop owner afterDate auth net st').
      cbn [fst] in *. by rewrite !filesWritten_app, Hquiet, IH.
    + cbn [fst]. by rewrite filesWritten_app, Hquiet.
Qed.

Lemma fetchMergedChanges_no_files `{Platform} owner afterDate user password net :
  filesWritten (fetchMergedChanges owner afterDate user password net).1 = [].
Proof.
  unfold fetchMergedChanges.
  pose proof (loop_no_files owner afterDate (authHeader user password) net initial).
  by destruct (loop _ _ _ net initial).
Qed.

Lemma currentCommit_missing change :
  commitMissing change → currentCommit change = None.
Proof.
  unfold commitMissing, currentCommit. intros Hmissing.
  destruct (ChangeInfo.current_revision change) as [sha|]; [|done].
  destruct (truthy sha); [|done].
  destruct (ChangeInfo.revisions change) as [revisions|]; [|done].
  destruct (revisions !! sha) as [revision|] eqn:Hrev; [|done].
  by apply (Hmissing sha revisions revision).
Qed.

Lemma sectionWithMessage_bullets `{Platform} change commit :
  sectionWithMessage change commit
  = bullets change +:+ "```" +:+ nl +:+ CommitInfo.message commit +:+ nl
    +:+ "```" +:+ nl +:+ nl.
Proof. unfold sectionWithMessage, bullets. by rewrite !string_app_assoc. Qed.

Lemma sectionWithoutMessage_bullets `{Platform} change :
  sectionWithoutMessage change = bullets change +:+ placeholder.
Proof. unfold sectionWithoutMessage, bullets, placeholder. by rewrite !string_app_assoc. Qed.

(** C5. A change whose current revision leads to no commit is rendered
    without error as the metadata bullets, the same as in a section with
    commit message, followed by the placeholder line, with a warning that
    names its Change-Id and subject; the loop goes on with the changes that
    follow, and a run that fetched such a change writes the document, its
    section included, and completes. *)
Theorem missing_commit_renders_placeholder `{Platform} change :
  commitMissing change →
  renderChange change
  = ([Warn (missingMessageWarning change)], bullets change +:+ placeholder)
  ∧ includes (missingMessageWarning change) (ChangeInfo.change_id change)
  ∧ includes (missingMessageWarning change) (ChangeInfo.subject change)
  ∧ (∀ commit, ∃ rest, sectionWithMessage change commit = bullets change +:+ rest)
  ∧ (∀ earlier later markdownContent,
       (renderChanges (earlier ++ change :: later) markdownContent).2
       = markdownContent +:+ sectionsOf earlier
         +:+ (bullets change +:+ placeholder) +:+ sectionsOf later)
  ∧ (∀ W credentials fetching mergedChanges,
       getGerritCredentials W GERRIT_SERVER_URL = Return credentials →
       fetchMergedChanges CL_OWNER
         (format (subDays (clock1 W) DAYS_TO_LOOK_BACK) "yyyy-MM-dd")
         (username credentials) (httpPassword credentials) (network W)
       = (fetching, Some (Return mergedChanges)) →
       change ∈ mergedChanges →
       (∀ content, writeFileSync W OUTPUT_FILENAME content = None) →
       ∃ events content,
         main W = (events, Completed)
         ∧ filesWritten events = [(OUTPUT_FILENAME, content)]
         ∧ includes content (bullets change +:+ placeholder)
         ∧ missingMessageWarning change ∈ warnings events).
Proof.
  intros Hmissing.
  assert (renderChange change
          = ([Warn (missingMessageWarning change)], bullets change +:+ placeholder))
    as Hrender.
  { unfold renderChange. rewrite currentCommit_missing by done.
    by rewrite sectionWithoutMessage_bullets. }
  split; [done|]. split; [|split; [|split; [|split]]].
  - unfold missingMessageWarning.
    repeat first [apply includes_mid | apply includes_skip].
  - unfold missingMessageWarning.
    repeat first [apply includes_mid | apply includes_skip].
  - intros commit. eexists. apply sectionWithMessage_bullets.
  - intros earlier later md. rewrite renderChanges_spec. cbn [snd].
    rewrite sectionsOf_app. cbn [sectionsOf foldr]. by rewrite Hrender.
  - intros W credentials fetching mergedChanges Hcred Hfetch Hin Hwrite.
    unfold main. rewrite Hcred, Hfetch.
    rewrite buildDocument_nonempty by (intros ->; set_solver).
    rewrite Hwrite.
    assert (change ∈ Array_sort comparefn mergedChanges) as Hsorted
      by (by rewrite Array_sort_perm).
    apply list_elem_of_split in Hsorted as (earlier & later & Hsplit).
    pose proof (fetchMergedChanges_no_files CL_OWNER
                  (format (subDays (clock1 W) DAYS_TO_LOOK_BACK) "yyyy-MM-dd")
                  (username credentials) (httpPassword credentials) (network W))
      as Hfiles.
    rewrite Hfetch in Hfiles. cbn [fst] in Hfiles.
    eexists _, (documentHeader (clock2 W)
                +:+ sectionsOf (Array_sort comparefn mergedChanges)).
    split; [done|]. split; [|split].
    + by rewrite !filesWritten_app, Hfiles, eventsOf_no_files.
    + rewrite Hsplit, sectionsOf_app. cbn [sectionsOf foldr]. rewrite Hrender.
      cbn [snd]. do 2 apply includes_skip. apply (includes_mid "").
    + rewrite !warnings_app, Hsplit, eventsOf_app. cbn [eventsOf foldr].
      rewrite Hrender. cbn [fst]. rewrite !warnings_app. set_solver.
Qed.

End Renderer.

(** ** The document and the clock *)

Section Determinism.
Import Spec GitCookies GerritApi Index Samples.

Lemma buildDocument_header `{Platform} changes :
  ∃ events body, ∀ now,
    buildDocument now changes = (events, documentHeader now +:+ body).
Proof.
  destruct changes as [|c cs].
  - by eexists _, _.
  - eexists _, _. intros now. by apply buildDocument_nonempty.
Qed.

Lemma documentHeader_inj `{Platform} now1 now2 :
  documentHeader now1 = documentHeader now2 ↔
  format now1 "yyyy-MM-dd HH:mm:ss" = format now2 "yyyy-MM-dd HH:mm:ss".
Proof.
  unfold documentHeader. split; [|by intros ->].
  intros E. apply String.app_inj in E. apply string_app_inv_tail in E.
  apply String.app_inj in E. by apply string_app_inv_tail in E.
Qed.

(** C8, amended. The document is a function of the fetched changes and of
    the time stamp in its header: two runs of the document-building step on
    the same changes give the same warnings and the same Markdown exactly
    when the clock, formatted to the second, reads the same in both; what
    follows the header is the same in every run. *)
Theorem document_determined_by_changes_and_stamp `{Platform} now1 now2 changes :
  (buildDocument now1 changes = buildDocument now2 changes
   ↔ format now1 "yyyy-MM-dd HH:mm:ss" = format now2 "yyyy-MM-dd HH:mm:ss")
  ∧ ∃ events body, ∀ now,
      buildDocument now changes = (events, documentHeader now +:+ body).
Proof.
  split; [|apply buildDocument_header].
  destruct (buildDocument_header changes) as (events & body & Hdoc).
  rewrite !Hdoc, <- documentHeader_inj. split.
  - intros E. apply (f_equal snd) in E. cbn [snd] in E.
    by apply string_app_inv_tail in E.
  - by intros ->.
Qed.

(** C8 as stated fails: the header carries the time of generation, so the
    same changes rendered at two times give two documents, and two runs that
    differ only in the reading of the clock write different files. *)
Lemma generation_time_changes_document :
  (buildDocument (P := platform) 1700000000000 (changesOf "12")).2
  ≠ (buildDocument (P := platform) 1700000060000 (changesOf "12")).2
  ∧ filesWritten (main (P := platform)
                    (world (Some cookies) 1700000000000 [okResponse "12"])).1
    ≠ filesWritten (main (P := platform)
                      (world (Some cookies) 1700000060000 [okResponse "12"])).1.
Proof. split; vm_compute; discriminate. Qed.

Lemma sections_sorted_by_submission_time_witness :
  ∃ order,
    (buildDocument (P := platform) 0 (changesOf "1323")).2
    = documentHeader (P := platform) 0 +:+ sectionsOf (H := platform) order
    ∧ order ≡ₚ changesOf "1323"
    ∧ StronglySorted
        (λ a b, (default 0 (Date_getTime (Platform := platform) (ChangeInfo.submitted b))
                 ≤ default 0 (Date_getTime (Platform := platform) (ChangeInfo.submitted a)))%Z)
        order
    ∧ ∀ t,
        filter (λ c, default 0%Z (Date_getTime (Platform := platform) (ChangeInfo.submitted c)) = t)
          order
        = filter (λ c, default 0%Z (Date_getTime (Platform := platform) (ChangeInfo.submitted c)) = t)
            (changesOf "1323").
Proof.
  apply (@sections_sorted_by_submission_time platform 0 (changesOf "1323")
           (λ c, default 0%Z (Date_getTime (Platform := platform) (ChangeInfo.submitted c)))).
  - discriminate.
  - intros c Hc. apply list_elem_of_In in Hc. simpl in Hc.
    destruct Hc as [<- | [<- | [<- | [<- | []]]]]; reflexivity.
Defined.

Lemma missing_commit_renders_placeholder_witness :
  renderChange (P := platform) (changeOf "?")
  = ([Warn (missingMessageWarning (changeOf "?"))],
     bullets (H := platform) (changeOf "?") +:+ placeholder).
Proof.
  refine (proj1 (@missing_commit_renders_placeholder platform (changeOf "?") _)).
  intros sha revisions revision [= <-] [= <-] Hrev.
  vm_compute in Hrev. injection Hrev as <-. reflexivity.
Defined.

(** The end-to-end scenario of one change with its commit message. *)
Example one_change_document :
  (buildDocument (P := platform) 0 (changesOf "7")).2
  = documentHeader (P := platform) 0
    +:+ "---" +:+ nl
    +:+ "### Fix 7" +:+ nl
    +:+ "* **Project:** `proj`" +:+ nl
    +:+ "* **Branch:** `main`" +:+ nl
    +:+ "* **Change-Id:** `I7`" +:+ nl
    +:+ "* **Submitted:** `7`" +:+ nl
    +:+ "* **Gerrit Link:** <https://fuchsia-review.googlesource.com/c/proj/+/I7>" +:+ nl
    +:+ "```" +:+ nl
    +:+ "Fix 7" +:+ nl +:+ nl +:+ "Details." +:+ nl
    +:+ "```" +:+ nl +:+ nl.
Proof. reflexivity. Qed.

(** No change fetched: the header and the fixed sentence. *)
Example no_changes_document now :
  buildDocument (P := platform) now []
  = ([], documentHeader (P := platform) now
         +:+ "No merged changes found for the specified period." +:+ nl).
Proof. reflexivity. Qed.

End Determinism.

(** ** More on the fetcher: every run of the page loop *)

Section FetcherRuns.
Import Spec GitCookies GerritApi Index.
Context {P : Platform}.

(** What a pass through the loop body can do. *)
Lemma iteration_cases out st :
  (∃ page line,
     servesPage out page
     ∧ iteration out st
       = ([Log line],
          Return {| allChanges := allChanges st ++ page;
                    start := start st + length page;
                    hasMore := (length page =? API_FETCH_LIMIT)%nat |}))
  ∨ (∃ e, failsWith out e
          ∧ iteration out st
            = ([ErrorLog ("Error fetching changes from Gerrit API: " +:+ toString e)],
               Throw e)).
Proof.
  destruct out as [e|r].
  - right. exists e. split; [by left | done].
  - destruct (ok r) eqn:Hok.
    + destruct (decode (text r)) as [page|e] eqn:Hdec.
      * left. destruct (iteration_page (Responded r) st page) as [line Hit].
        { by exists r. }
        exists page, line. split; [by exists r | done].
      * right. exists e. split; [right; right; by exists r|].
        unfold iteration, tryPage. by rewrite Hok, Hdec.
    + right. exists (newError (apiErrorMessage r)).
      split; [right; left; by exists r | by apply iteration_not_ok].
Qed.

Lemma iteration_fails out st e :
  failsWith out e →
  iteration out st
  = ([ErrorLog ("Error fetching changes from Gerrit API: " +:+ toString e)], Throw e).
Proof.
  unfold iteration, tryPage.
  intros [-> | [(r & -> & Hok & ->) | (r & -> & Hok & Hdec)]]; [done|..].
  - by rewrite Hok.
  - by rewrite Hok, Hdec.
Qed.

Lemma loop_request_offsets owner afterDate auth net st i url auth' :
  requests (loop owner afterDate auth net st).1 !! i = Some (url, auth') →
  url = requestUrl owner afterDate (start st + i * API_FETCH_LIMIT)
  ∧ auth' = auth.
Proof.
  revert st i. induction net as [|out net IH]; intros st i.
  - destruct (hasMore st) eqn:Hmore; cbn [loop]; rewrite Hmore; [|done].
    destruct i as [|i]; [|done]. intros [= <- <-].
    by rewrite Nat.add_0_r.
  - destruct (hasMore st) eqn:Hmore; [|by rewrite loop_done].
    rewrite loop_cons by done.
    destruct (iteration_cases out st) as [(page & line & _ & ->) | (e & _ & ->)].
    + set (st' := {| allChanges := allChanges st ++ page |}).
      specialize (IH st').
      destruct (loop owner afterDate auth net st') as [events' r] eqn:Hloop.
      cbn [fst] in *. rewrite requests_app, requests_request.
      destruct i as [|i].
      * intros [= <- <-]. by rewrite Nat.add_0_r.
      * cbn [app requests lookup list_lookup]. intros Hi.
        destruct (length page =? API_FETCH_LIMIT)%nat eqn:Hfull.
        -- apply Nat.eqb_eq in Hfull. apply IH in Hi as [-> ->].
           split; [|done]. f_equal. cbn [st' start]. lia.
        -- rewrite loop_done in Hloop by done. by injection Hloop as <- <-.
    + cbn [fst]. rewrite requests_app, requests_request.
      destruct i as [|i]; [|done]. intros [= <- <-].
      by rewrite Nat.add_0_r.
Qed.

Lemma fetchMergedChanges_requests owner afterDate user password net i url auth :
  requests (fetchMergedChanges owner afterDate user password net).1 !! i
  = Some (url, auth) →
  url = requestUrl owner afterDate (i * API_FETCH_LIMIT)
  ∧ auth = authHeader user password.
Proof.
  unfold fetchMergedChanges.
  destruct (loop owner afterDate (authHeader user password) net initial)
    as [events r] eqn:Hloop.
  cbn [fst requests]. intros Hi.
  apply (loop_request_offsets owner afterDate (authHeader user password) net initial).
  by rewrite Hloop.
Qed.

(** X1. Whatever the server answers, the request number [i] of a fetch asks
    for the page at offset [i * API_FETCH_LIMIT], and every request carries
    the Basic credential built from the username and password given. *)
Theorem fetch_requests_step_by_page_size owner afterDate user password net i url auth :
  requests (fetchMergedChanges owner afterDate user password net).1 !! i
  = Some (url, auth) →
  url = requestUrl owner afterDate (i * API_FETCH_LIMIT)
  ∧ auth = authHeader user password.
Proof. apply fetchMergedChanges_requests. Qed.

(** The page that ends the loop is the first whose length is not the
    page size. *)
Lemma loop_last_page owner afterDate auth outs pages out final rest st :
  hasMore st = true →
  Forall2 servesPage outs pages →
  Forall (λ page, length page = API_FETCH_LIMIT) pages →
  servesPage out final →
  length final ≠ API_FETCH_LIMIT →
  ∃ events,
    loop owner afterDate auth (outs ++ out :: rest) st
    = (events, Some (Return (allChanges st ++ concat pages ++ final)))
    ∧ length (requests events) = S (length pages)
    ∧ last events
      = Some (Log ("Total merged changes fetched across all pages: "
                   +:+ pretty (length (allChanges st ++ concat pages ++ final)))).
Proof.
  intros Hmore Hserve Hfull Hout Hne.
  destruct (loop_full_pages owner afterDate auth outs pages st)
    as (events & Hreq & _ & ->); [done..|].
  rewrite loop_cons by done.
  destruct (iteration_page out (after st pages) final Hout) as [line ->].
  rewrite loop_done by (cbn [hasMore]; by apply Nat.eqb_neq).
  eexists. cbn [fst snd after allChanges]. rewrite <- !app_assoc.
  split; [done|]. split.
  - rewrite !requests_app, Hreq, !length_app, length_fmap, offsets_length.
    cbn. lia.
  - by rewrite !app_assoc, last_snoc.
Qed.

(** A loop that returns has consumed full pages and then one page of
    another length. *)
Lemma loop_Return owner afterDate auth net st events changes :
  hasMore st = true →
  loop owner afterDate auth net st = (events, Some (Return changes)) →
  ∃ outs pages out final rest,
    net = outs ++ out :: rest
    ∧ Forall2 servesPage outs pages
    ∧ Forall (λ page, length page = API_FETCH_LIMIT) pages
    ∧ servesPage out final
    ∧ length final ≠ API_FETCH_LIMIT
    ∧ changes = allChanges st ++ concat pages ++ final.
Proof.
  revert st events. induction net as [|o net IH]; intros st events Hmore.
  - cbn [loop]. by rewrite Hmore.
  - rewrite loop_cons by done.
    destruct (iteration_cases o st) as [(page & line & Ho & ->) | (e & _ & ->)];
      [|done].
    set (st' := {| allChanges := allChanges st ++ page |}).
    destruct (length page =? API_FETCH_LIMIT)%nat eqn:Hfull.
    + apply Nat.eqb_eq in Hfull.
      destruct (loop owner afterDate auth net st') as [events' r] eqn:Hloop.
      intros [= <- ->].
      destruct (IH st' events') as
        (outs & pages & out & final & rest & -> & Hs & Hf & Hout & Hlt & ->);
        [done | done |].
      exists (o :: outs), (page :: pages), out, final, rest.
      split; [done|]. split; [by constructor|]. split; [by constructor|].
      do 2 (split; [done|]). cbn [st' allChanges concat]. by rewrite <- !app_assoc.
    + rewrite loop_done by done. intros [= <- <-].
      exists [], [], o, page, net. apply Nat.eqb_neq in Hfull.
      split; [done|]. do 2 (split; [constructor|]). done.
Qed.

(** X2. A fetch returns only after full pages followed by one page of
    another length, shorter or longer: the changes returned are those pages
    in order, the fetch has issued one request per page, and the final thing
    it logs is the total it returns. *)
Theorem fetch_returns_after_first_odd_page owner afterDate user password net events changes :
  fetchMergedChanges owner afterDate user password net
  = (events, Some (Return changes)) →
  ∃ outs pages out final rest,
    net = outs ++ out :: rest
    ∧ Forall2 servesPage outs pages
    ∧ Forall (λ page, length page = API_FETCH_LIMIT) pages
    ∧ servesPage out final
    ∧ length final ≠ API_FETCH_LIMIT
    ∧ changes = concat pages ++ final
    ∧ length changes = (API_FETCH_LIMIT * length pages + length final)%nat
    ∧ length (requests events) = S (length pages)
    ∧ last events
      = Some (Log ("Total merged changes fetched across all pages: "
             +:+ pretty (length changes))).
Proof.
  unfold fetchMergedChanges.
  destruct (loop owner afterDate (authHeader user password) net initial)
    as [events' r] eqn:Hloop.
  intros [= <- ->].
  destruct (loop_Return owner afterDate (authHeader user password) net initial
              events' changes eq_refl Hloop)
    as (outs & pages & out & final & rest & -> & Hs & Hf & Hout & Hne & ->).
  destruct (loop_last_page owner afterDate (authHeader user password)
              outs pages out final rest initial)
    as (events'' & Hloop' & Hreq & Hlast); [done..|].
  rewrite Hloop in Hloop'. injection Hloop' as ->.
  exists outs, pages, out, final, rest. do 5 (split; [done|]).
  cbn [initial allChanges app] in *. split; [done|].
  split; [by rewrite length_app, concat_full_length|]. split; [done|].
  by rewrite last_cons, Hlast.
Qed.

Lemma loop_waiting owner afterDate auth net st events :
  hasMore st = true →
  loop owner afterDate auth net st = (events, None) →
  ∃ pages, Forall2 servesPage net pages
           ∧ Forall (λ page, length page = API_FETCH_LIMIT) pages.
Proof.
  revert st events. induction net as [|o net IH]; intros st events Hmore.
  - intros _. exists []. split; constructor.
  - rewrite loop_cons by done.
    destruct (iteration_cases o st) as [(page & line & Ho & ->) | (e & _ & ->)];
      [|done].
    set (st' := {| allChanges := allChanges st ++ page |}).
    destruct (length page =? API_FETCH_LIMIT)%nat eqn:Hfull.
    + apply Nat.eqb_eq in Hfull.
      destruct (loop owner afterDate auth net st') as [events' r] eqn:Hloop.
      intros [= <- ->].
      destruct (IH st' events') as (pages & Hs & Hf); [done..|].
      exists (page :: pages). split; by constructor.
    + by rewrite loop_done.
Qed.

(** X3. A fetch is still waiting for a response, with nothing returned,
    exactly when every response so far was a full page: after [k] full pages
    it has issued [k + 1] requests, so a result set that is a multiple of the
    page size costs one request more than it has pages. *)
Theorem fetch_waits_after_full_pages owner afterDate user password net :
  ((fetchMergedChanges owner afterDate user password net).2 = None
   ↔ ∃ pages, Forall2 servesPage net pages
              ∧ Forall (λ page, length page = API_FETCH_LIMIT) pages)
  ∧ ((fetchMergedChanges owner afterDate user password net).2 = None →
     length (requests (fetchMergedChanges owner afterDate user password net).1)
     = S (length net)).
Proof.
  assert (∀ pages,
            Forall2 servesPage net pages →
            Forall (λ page, length page = API_FETCH_LIMIT) pages →
            (fetchMergedChanges owner afterDate user password net).2 = None
            ∧ length (requests (fetchMergedChanges owner afterDate user password net).1)
              = S (length net)) as Hfull.
  { intros pages Hs Hf. unfold fetchMergedChanges.
    destruct (loop_full_pages owner afterDate (authHeader user password)
                net pages initial) as (events & Hreq & _ & Hloop); [done..|].
    specialize (Hloop []). rewrite app_nil_r in Hloop. rewrite Hloop.
    cbn [loop after hasMore fst snd requests]. split; [done|].
    rewrite requests_app, Hreq, length_app, length_fmap, offsets_length.
    apply Forall2_length in Hs. cbn. lia. }
  assert ((fetchMergedChanges owner afterDate user password net).2 = None →
          ∃ pages, Forall2 servesPage net pages
                   ∧ Forall (λ page, length page = API_FETCH_LIMIT) pages) as Hinv.
  { unfold fetchMergedChanges.
    destruct (loop owner afterDate (authHeader user password) net initial)
      as [events r] eqn:Hloop.
    cbn [snd]. intros ->. by eapply (loop_waiting _ _ _ net initial). }
  split; [split|].
  - done.
  - intros (pages & Hs & Hf). by destruct (Hfull pages).
  - intros Hnone. destruct (Hinv Hnone) as (pages & Hs & Hf).
    by destruct (Hfull pages).
Qed.

(** X4. After any number of full pages, a request that is rejected, a
    response that is not [ok], or a body that does not parse makes the fetch
    throw that very error; it is logged once, as the last thing the fetch
    does, and no further request is issued. *)
Theorem fetch_failure_is_logged_and_thrown
    owner afterDate user password outs pages out e rest :
  Forall2 servesPage outs pages →
  Forall (λ page, length page = API_FETCH_LIMIT) pages →
  failsWith out e →
  ∃ events,
    fetchMergedChanges owner afterDate user password (outs ++ out :: rest)
    = (events, Some (Throw e))
    ∧ length (requests events) = S (length pages)
    ∧ last events
      = Some (ErrorLog ("Error fetching changes from Gerrit API: " +:+ toString e)).
Proof.
  intros Hs Hf Hout. unfold fetchMergedChanges.
  destruct (loop_full_pages owner afterDate (authHeader user password)
              outs pages initial) as (events & Hreq & _ & ->); [done..|].
  rewrite loop_cons, (iteration_fails out _ e) by done.
  eexists. cbn [fst snd]. split; [done|]. split.
  - cbn [requests]. rewrite !requests_app, Hreq, !length_app, length_fmap, offsets_length.
    cbn. lia.
  - by rewrite last_cons, !app_assoc, last_snoc.
Qed.

Lemma loop_Throw owner afterDate auth net st events e :
  hasMore st = true →
  loop owner afterDate auth net st = (events, Some (Throw e)) →
  ∃ outs pages out rest,
    net = outs ++ out :: rest
    ∧ Forall2 servesPage outs pages
    ∧ Forall (λ page, length page = API_FETCH_LIMIT) pages
    ∧ failsWith out e.
Proof.
  revert st events. induction net as [|o net IH]; intros st events Hmore.
  - cbn [loop]. by rewrite Hmore.
  - rewrite loop_cons by done.
    destruct (iteration_cases o st) as [(page & line & Ho & ->) | (e' & He' & ->)].
    + set (st' := {| allChanges := allChanges st ++ page |}).
      destruct (length page =? API_FETCH_LIMIT)%nat eqn:Hfull.
      * apply Nat.eqb_eq in Hfull.
        destruct (loop owner afterDate auth net st') as [events' r] eqn:Hloop.
        intros [= <- ->].
        destruct (IH st' events') as (outs & pages & out & rest & -> & Hs & Hf & Hout);
          [done..|].
        exists (o :: outs), (page :: pages), out, rest.
        split; [done|]. split; [by constructor|]. split; [by constructor | done].
      * by rewrite loop_done.
    + intros [= <- <-]. exists [], [], o, net.
      split; [done|]. do 2 (split; [constructor|]). done.
Qed.

(** X5. A fetch throws only what a failed request gave it: the error [e]
    comes from the first outcome that is not a page, all outcomes before it
    being full pages. *)
Theorem fetch_throws_only_on_failed_request
    owner afterDate user password net events e :
  fetchMergedChanges owner afterDate user password net = (events, Some (Throw e)) →
  ∃ outs pages out rest,
    net = outs ++ out :: rest
    ∧ Forall2 servesPage outs pages
    ∧ Forall (λ page, length page = API_FETCH_LIMIT) pages
    ∧ failsWith out e.
Proof.
  unfold fetchMergedChanges.
  destruct (loop owner afterDate (authHeader user password) net initial)
    as [events' r] eqn:Hloop.
  intros [= <- ->]. by eapply (loop_Throw _ _ _ net initial).
Qed.

End FetcherRuns.

(** ** More on the orchestrator *)

Section Orchestrator.
Import Spec GitCookies GerritApi Index.
Context {P : Platform}.

Lemma eventsOf_no_requests changes : requests (eventsOf changes) = [].
Proof.
  induction changes as [|c cs IH]; [done|].
  cbn [eventsOf foldr]. fold (eventsOf cs). rewrite requests_app, IH.
  unfold renderChange. by destruct (currentCommit c).
Qed.

(** The document-building step, whatever the changes. *)
Lemma buildDocument_spec now changes :
  buildDocument now changes
  = (eventsOf (Array_sort comparefn changes),
     documentHeader now
     +:+ match changes with
         | [] => "No merged changes found for the specified period." +:+ nl
         | _ :: _ => sectionsOf (Array_sort comparefn changes)
         end).
Proof.
  destruct changes as [|c cs]; [done|]. by apply buildDocument_nonempty.
Qed.

(** X6. No partial output: a run of [main] writes the output file only when
    it completes, then exactly once and under [OUTPUT_FILENAME], its last
    message being the report of success; a run that exits with status 1, or
    still waits for a response, has written no file. *)
Theorem main_writes_file_only_on_completion W :
  ((main W).2 = Completed
   ∧ (∃ content, filesWritten (main W).1 = [(OUTPUT_FILENAME, content)])
   ∧ last (main W).1
     = Some (Log (nl +:+ "Process completed successfully! Commit messages saved to "
                  +:+ OUTPUT_FILENAME)))
  ∨ ((main W).2 ≠ Completed ∧ filesWritten (main W).1 = []).
Proof.
  unfold main.
  destruct (getGerritCredentials W GERRIT_SERVER_URL) as [c|e]; [|by right].
  pose proof (fetchMergedChanges_no_files CL_OWNER
                (format (subDays (clock1 W) DAYS_TO_LOOK_BACK) "yyyy-MM-dd")
                (username c) (httpPassword c) (network W)) as Hfiles.
  destruct (fetchMergedChanges _ _ _ _ (network W)) as [fetching [[changes|e]|]];
    cbn [fst] in Hfiles.
  - rewrite buildDocument_spec. cbv beta iota zeta.
    destruct (writeFileSync W OUTPUT_FILENAME _) as [e|]; cbn [fst snd].
    + right. split; [done|].
      by rewrite !filesWritten_app, Hfiles, eventsOf_no_files.
    + left. split; [done|]. split.
      * eexists. by rewrite !filesWritten_app, Hfiles, eventsOf_no_files.
      * rewrite !app_assoc.
        by rewrite (last_app_cons _ [_]).
  - right. cbn [fst snd]. split; [done|]. by rewrite !filesWritten_app, Hfiles.
  - right. cbn [fst snd]. split; [done|]. by rewrite !filesWritten_app, Hfiles.
Qed.

(** X7. Every request of a run of [main] is made with the credential loaded
    from the secrets file, for the configured owner and the date
    [DAYS_TO_LOOK_BACK] days before the first reading of the clock, at an
    offset that is a multiple of the page size; without a credential no
    request is made. *)
Theorem main_requests_carry_loaded_credential W i url auth :
  requests (main W).1 !! i = Some (url, auth) →
  ∃ credentials,
    getGerritCredentials W GERRIT_SERVER_URL = Return credentials
    ∧ auth = authHeader (username credentials) (httpPassword credentials)
    ∧ url = requestUrl CL_OWNER
              (format (subDays (clock1 W) DAYS_TO_LOOK_BACK) "yyyy-MM-dd")
              (i * API_FETCH_LIMIT).
Proof.
  unfold main.
  destruct (getGerritCredentials W GERRIT_SERVER_URL) as [c|e]; [|done].
  set (afterDate := format (subDays (clock1 W) DAYS_TO_LOOK_BACK) "yyyy-MM-dd").
  pose proof (fetchMergedChanges_requests CL_OWNER afterDate
                (username c) (httpPassword c) (network W) i url auth) as Hreq.
  destruct (fetchMergedChanges _ _ _ _ (network W)) as [fetching r].
  cbn [fst] in Hreq. intros Hi.
  assert (requests fetching !! i = Some (url, auth)) as Hfetch.
  { destruct r as [[changes|e]|].
    - rewrite buildDocument_spec in Hi. cbv beta iota zeta in Hi.
      destruct (writeFileSync W OUTPUT_FILENAME _);
        cbn [fst] in Hi;
        by rewrite !requests_app, eventsOf_no_requests, !app_nil_r in Hi.
    - cbn [fst] in Hi. by rewrite !requests_app, !app_nil_r in Hi.
    - cbn [fst] in Hi. by rewrite !requests_app in Hi. }
  exists c. split; [done|]. by destruct (Hreq Hfetch) as [-> ->].
Qed.

(** X8. When the first response is an empty page, the fetch stops after
    that one request, and [main] writes a document made of the header and the
    sentence that no merged change was found, logs no warning and
    completes. *)
Theorem no_changes_document_written W credentials out rest :
  getGerritCredentials W GERRIT_SERVER_URL = Return credentials →
  network W = out :: rest →
  servesPage out [] →
  (∀ content, writeFileSync W OUTPUT_FILENAME content = None) →
  ∃ events,
    main W = (events, Completed)
    ∧ filesWritten events
      = [(OUTPUT_FILENAME,
          documentHeader (clock2 W)
          +:+ "No merged changes found for the specified period." +:+ nl)]
    ∧ warnings events = []
    ∧ length (requests events) = 1%nat
    ∧ Log "No merged changes found for the given criteria." ∈ events.
Proof.
  intros Hcred Hnet (r & -> & Hok & Hdec) Hwrite.
  unfold main. rewrite Hcred, Hnet. unfold fetchMergedChanges.
  rewrite loop_cons by done.
  assert (∀ st, start st = 0%nat →
            iteration (Responded r) st
            = ([Log "No merged changes found for the given criteria."],
               Return {| allChanges := allChanges st; start := 0; hasMore := false |}))
    as Hit.
  { intros st Hst. unfold iteration, tryPage. rewrite Hok, Hdec. cbn [negb].
    unfold onPage. cbn [length]. by rewrite Hst. }
  rewrite Hit by done. rewrite loop_done by done.
  cbn [initial allChanges]. rewrite buildDocument_spec. cbv beta iota zeta.
  rewrite Hwrite.
  eexists. split; [done|]. split; [done|]. split; [done|]. split; [done|].
  set_solver.
Qed.

End Orchestrator.

(** ** More on the renderer *)

Section RendererRuns.
Import Spec GitCookies GerritApi Index.
Context {P : Platform}.

Lemma Array_sort_sorted_id {A} (comparefn : A → A → option Z) (key : A → Z) l :
  byDecreasingKey comparefn key l →
  StronglySorted (λ a b, (key b ≤ key a)%Z) l →
  Array_sort comparefn l = l.
Proof.
  intros Hkey Hl. induction Hl as [|x l Hl IH Hx]; [done|].
  cbn [Array_sort foldr]. fold (Array_sort comparefn l).
  rewrite IH by (intros y z Hy Hz; apply Hkey; set_solver).
  destruct l as [|y l]; [done|]. cbn [insertBy].
  rewrite (Hkey x y) by set_solver.
  apply Forall_cons in Hx as [Hxy _]. by rewrite bool_decide_true.
Qed.



(** X10. Changes that arrive most recent first keep their order: on a list
    already non-increasing in submission time the sort changes nothing, so
    the sections follow the fetched order; and sorting an array that was
    sorted before, as a second rendering of the array sorted in place would,
    gives the same order again. *)
Theorem descending_changes_keep_their_order now changes (ts : ChangeInfo.t → Z) :
  (∀ c, c ∈ changes → Date_getTime (ChangeInfo.submitted c) = Some (ts c)) →
  (StronglySorted (λ a b, (ts b ≤ ts a)%Z) changes →
   Array_sort comparefn changes = changes
   ∧ (changes ≠ [] →
      (buildDocument now changes).2 = documentHeader now +:+ sectionsOf changes))
  ∧ Array_sort comparefn (Array_sort comparefn changes)
    = Array_sort comparefn changes.
Proof.
  intros Hts. pose proof (comparefn_byDecreasingKey changes ts Hts) as Hkey.
  split.
  - intros Hsorted.
    assert (Array_sort comparefn changes = changes) as Hid
      by (by apply (Array_sort_sorted_id comparefn ts)).
    split; [done|]. intros Hne. by rewrite buildDocument_nonempty, Hid.
  - apply (Array_sort_sorted_id comparefn ts).
    + intros a b Ha Hb. apply Hkey; by rewrite <- (Array_sort_perm comparefn changes).
    + by apply Array_sort_sorted.
Qed.

(** X11. A section carries the fenced commit message, and no warning is
    logged for it, exactly when [current_revision] is a non-empty hash under
    which [revisions] has a revision with a commit; otherwise the section is
    the placeholder with its warning. An empty string as [current_revision]
    counts as no revision, even when [revisions] has an entry under it. *)
Theorem section_carries_message_exactly_when change :
  (∀ commit,
     renderChange change = ([], fenced change (CommitInfo.message commit))
     ∧ currentCommit change = Some commit
     ↔ ∃ sha revisions revision,
         ChangeInfo.current_revision change = Some sha
         ∧ sha ≠ ""
         ∧ ChangeInfo.revisions change = Some revisions
         ∧ revisions !! sha = Some revision
         ∧ RevisionInfo.commit revision = Some commit)
  ∧ ((¬ ∃ sha revisions revision commit,
          ChangeInfo.current_revision change = Some sha
          ∧ sha ≠ ""
          ∧ ChangeInfo.revisions change = Some revisions
          ∧ revisions !! sha = Some revision
          ∧ RevisionInfo.commit revision = Some commit) →
     renderChange change
     = ([Warn (missingMessageWarning change)], bullets change +:+ placeholder))
  ∧ (ChangeInfo.current_revision change = Some "" →
     renderChange change
     = ([Warn (missingMessageWarning change)], bullets change +:+ placeholder)).
Proof.
  assert (∀ commit,
            currentCommit change = Some commit
            ↔ ∃ sha revisions revision,
                ChangeInfo.current_revision change = Some sha
                ∧ sha ≠ ""
                ∧ ChangeInfo.revisions change = Some revisions
                ∧ revisions !! sha = Some revision
                ∧ RevisionInfo.commit revision = Some commit) as Hcommit.
  { intros commit. unfold currentCommit. split.
    - destruct (ChangeInfo.current_revision change) as [sha|]; [|done].
      destruct (truthy sha) eqn:Hsha; [|done]. apply truthy_spec in Hsha.
      destruct (ChangeInfo.revisions change) as [revisions|]; [|done].
      destruct (revisions !! sha) as [revision|] eqn:Hrev; [|done].
      intros Hc. by exists sha, revisions, revision.
    - intros (sha & revisions & revision & -> & Hsha & -> & -> & Hc).
      apply truthy_spec in Hsha. by rewrite Hsha. }
  assert (currentCommit change = None →
          renderChange change
          = ([Warn (missingMessageWarning change)], bullets change +:+ placeholder))
    as Hnone.
  { intros Hc. unfold renderChange. by rewrite Hc, sectionWithoutMessage_bullets. }
  split; [|split].
  - intros commit. rewrite <- Hcommit. split; [by intros [_ ?]|].
    intros Hc. split; [|done]. unfold renderChange, fenced.
    by rewrite Hc, sectionWithMessage_bullets.
  - intros Hno. apply Hnone. destruct (currentCommit change) as [commit|] eqn:Hc; [|done].
    destruct Hno.
    destruct (proj1 (Hcommit commit) eq_refl) as (sha & revisions & revision & ?).
    by exists sha, revisions, revision, commit.
  - intros Hsha. apply Hnone. unfold currentCommit. by rewrite Hsha.
Qed.

End RendererRuns.

(** ** More on the credential loader *)

Section LoaderRuns.
Import Spec GitCookies.
Context {P : Platform}.

Lemma split_app_sep sep s t :
  split sep (s +:+ String sep t) = split sep s ++ split sep t.
Proof.
  induction s as [|c s IH].
  - change (split sep (String sep t) = [""] ++ split sep t). simpl.
    by rewrite Ascii.eqb_refl.
  - change (split sep (String c (s +:+ String sep t))
            = split sep (String c s) ++ split sep t).
    simpl. destruct (Ascii.eqb c sep); [by rewrite IH|]. rewrite IH.
    pose proof (split_nonempty sep s). by destruct (split sep s).
Qed.

Lemma scanLines_app_Some host lines lines' c :
  scanLines host lines = Some c → scanLines host (lines ++ lines') = Some c.
Proof.
  induction lines as [|l lines IH]; [done|]. cbn [app scanLines].
  by destruct (scanLine host l).
Qed.

(** X12. The first usable record wins: text added to the secrets file after
    a line feed at its end, further records for the same host included, never
    changes the credential the loader returns. *)
Theorem later_lines_never_override W W' url content more c :
  readFileSync W gitcookiesPath = Return content →
  existsSync W' gitcookiesPath = true →
  readFileSync W' gitcookiesPath = Return (content +:+ String lf more) →
  getGerritCredentials W url = Return c →
  getGerritCredentials W' url = Return c.
Proof.
  intros Hread Hexists' Hread'. unfold getGerritCredentials.
  destruct (URL_hostname url) as [host|]; [|done].
  destruct (existsSync W gitcookiesPath); [|done].
  rewrite Hread, Hexists', Hread'. cbn [negb].
  destruct (scanLines host (split lf content)) as [c'|] eqn:Hscan; [|done].
  intros [= ->]. rewrite split_app_sep.
  by rewrite (scanLines_app_Some _ _ _ c).
Qed.

(** X13. Lines are cut at line feeds only, and nothing is trimmed from a
    field: in a file with CR LF line ends the carriage return stays at the
    end of the token. A record for the host with cookie-name [o] and value
    [u=t], followed by a carriage return, yields the token [t] with the
    carriage return, also when [t] is empty. *)
Theorem carriage_return_stays_in_token host line domain f1 f2 f3 f4 u t :
  tabSeparated line [domain; f1; f2; f3; f4; "o"; u +:+ "=" +:+ t] →
  ¬ comment line →
  hostMatch domain host →
  u ≠ "" → ("="%char ∉ chars u) → ("="%char ∉ chars t) →
  scanLine host (line +:+ String "013" "")
  = Some {| username := u; httpPassword := t +:+ String "013" "" |}.
Proof.
  intros (_ & Hline & Hfree) Hcomment Hmatch Hu Hfu Hft.
  apply scanLine_spec. split; [|split].
  - intros [rest E]. apply Hcomment. destruct line as [|a line].
    + discriminate E.
    + injection E as -> _. by exists line.
  - unfold blank. rewrite chars_app, Forall_app. intros [Hblank _].
    rewrite Hline in Hblank. cbn [String.concat] in Hblank.
    rewrite !chars_app, !Forall_app in Hblank.
    destruct Hblank as (_ & _ & _ & _ & _ & _ & _ & _ & _ & _ & Ho & _).
    by apply Forall_cons in Ho as [? _].
  - exists domain, f1, f2, f3, f4, ((u +:+ "=" +:+ t) +:+ String "013" "").
    split; [|split; [done|]].
    + split; [done|]. split.
      * rewrite Hline. cbn [String.concat]. by rewrite !string_app_assoc.
      * repeat (apply Forall_cons in Hfree as [? Hfree]).
        repeat (constructor; [done|]). constructor; [|done].
        rewrite chars_app, not_elem_of_app. split; [done|].
        rewrite list_elem_of_In. simpl. intuition discriminate.
    + unfold valuePieces. split; [done|]. split; [by destruct t|].
      split; [done|]. split; [|left; by rewrite !string_app_assoc].
      rewrite chars_app, not_elem_of_app. split; [done|].
      rewrite list_elem_of_In. simpl. intuition discriminate.
Qed.

End LoaderRuns.

(** ** Further runs on sample inputs *)

Section FurtherSamples.
Import Spec GitCookies GerritApi Index Samples.

Lemma fetch_requests_step_by_page_size_witness :
  requestUrl CL_OWNER "2024-01-01" 500
  = requestUrl CL_OWNER "2024-01-01" (1 * API_FETCH_LIMIT)
  ∧ authHeader (P := platform) "user" "token" = authHeader (P := platform) "user" "token".
Proof.
  apply (@fetch_requests_step_by_page_size platform CL_OWNER "2024-01-01" "user" "token"
           [okResponse fullPage; okResponse "123"] 1%nat).
  by vm_compute.
Defined.

Lemma fetch_returns_after_first_odd_page_witness :
  ∃ outs pages out final rest,
    [okResponse fullPage; okResponse "123"; Responded forbidden] = outs ++ out :: rest
    ∧ Forall2 (servesPage (H := platform)) outs pages
    ∧ Forall (λ page, length page = API_FETCH_LIMIT) pages
    ∧ servesPage (H := platform) out final
    ∧ length final ≠ API_FETCH_LIMIT
    ∧ concat [changesOf fullPage] ++ changesOf "123" = concat pages ++ final
    ∧ length (concat [changesOf fullPage] ++ changesOf "123")
      = (API_FETCH_LIMIT * length pages + length final)%nat
    ∧ length (requests (fetchMergedChanges (P := platform) CL_OWNER "2024-01-01"
                          "user" "token"
                          [okResponse fullPage; okResponse "123"; Responded forbidden]).1)
      = S (length pages)
    ∧ last (fetchMergedChanges (P := platform) CL_OWNER "2024-01-01" "user" "token"
              [okResponse fullPage; okResponse "123"; Responded forbidden]).1
      = Some (Log ("Total merged changes fetched across all pages: "
                   +:+ pretty (length (concat [changesOf fullPage] ++ changesOf "123")))).
Proof.
  apply (@fetch_returns_after_first_odd_page platform CL_OWNER "2024-01-01" "user" "token"
           [okResponse fullPage; okResponse "123"; Responded forbidden]).
  by vm_compute.
Defined.

Lemma fetch_waits_after_full_pages_witness :
  (fetchMergedChanges (P := platform) CL_OWNER "2024-01-01" "user" "token"
     [okResponse fullPage]).2 = None
  ∧ length (requests (fetchMergedChanges (P := platform) CL_OWNER "2024-01-01"
                        "user" "token" [okResponse fullPage]).1) = 2%nat.
Proof.
  destruct (@fetch_waits_after_full_pages platform CL_OWNER "2024-01-01" "user" "token"
              [okResponse fullPage]) as [Hiff Hcount].
  assert ((fetchMergedChanges (P := platform) CL_OWNER "2024-01-01" "user" "token"
             [okResponse fullPage]).2 = None) as Hnone.
  { apply Hiff. exists [changesOf fullPage].
    split; [repeat constructor; apply okResponse_serves
           | repeat constructor; apply fullPage_length]. }
  split; [exact Hnone | exact (Hcount Hnone)].
Defined.

Lemma fetch_failure_is_logged_and_thrown_witness :
  ∃ events,
    fetchMergedChanges (P := platform) CL_OWNER "2024-01-01" "user" "token"
      ([okResponse fullPage] ++ Rejected refused :: [])
    = (events, Some (Throw refused))
    ∧ length (requests events) = 2%nat
    ∧ last events
      = Some (ErrorLog ("Error fetching changes from Gerrit API: "
                        +:+ toString refused)).
Proof.
  apply (@fetch_failure_is_logged_and_thrown platform CL_OWNER "2024-01-01" "user" "token"
           [okResponse fullPage] [changesOf fullPage] (Rejected refused) refused []).
  - repeat constructor; apply okResponse_serves.
  - repeat constructor; apply fullPage_length.
  - by left.
Defined.

Lemma fetch_throws_only_on_failed_request_witness :
  ∃ outs pages out rest,
    [Responded {| status := 200; statusText := "OK"; text := "not json" |};
     okResponse "12"] = outs ++ out :: rest
    ∧ Forall2 (servesPage (H := platform)) outs pages
    ∧ Forall (λ page, length page = API_FETCH_LIMIT) pages
    ∧ failsWith (H := platform) out syntaxError.
Proof.
  apply (@fetch_throws_only_on_failed_request platform CL_OWNER "2024-01-01" "user" "token"
           [Responded {| status := 200; statusText := "OK"; text := "not json" |};
            okResponse "12"]
           (fetchMergedChanges (P := platform) CL_OWNER "2024-01-01" "user" "token"
              [Responded {| status := 200; statusText := "OK"; text := "not json" |};
               okResponse "12"]).1).
  by vm_compute.
Defined.

Lemma main_requests_carry_loaded_credential_witness :
  ∃ credentials,
    getGerritCredentials (P := platform) (world (Some cookies) 0 [okResponse "12"])
      GERRIT_SERVER_URL = Return credentials
    ∧ authHeader (P := platform) "git-user.example.com" "1//0secret"
      = authHeader (P := platform) (username credentials) (httpPassword credentials)
    ∧ requestUrl CL_OWNER "1684448000000" 0
      = requestUrl CL_OWNER
          (format (Platform := platform)
             (subDays (Platform := platform)
                (clock1 (world (Some cookies) 0 [okResponse "12"])) DAYS_TO_LOOK_BACK)
             "yyyy-MM-dd")
          (0 * API_FETCH_LIMIT).
Proof.
  apply (@main_requests_carry_loaded_credential platform
           (world (Some cookies) 0 [okResponse "12"]) 0%nat).
  by vm_compute.
Defined.

Lemma no_changes_document_written_witness :
  ∃ events,
    main (P := platform) (world (Some cookies) 0 [okResponse ""]) = (events, Completed)
    ∧ filesWritten events
      = [(OUTPUT_FILENAME,
          documentHeader (P := platform) 0
          +:+ "No merged changes found for the specified period." +:+ nl)]
    ∧ warnings events = []
    ∧ length (requests events) = 1%nat
    ∧ Log "No merged changes found for the given criteria." ∈ events.
Proof.
  apply (@no_changes_document_written platform (world (Some cookies) 0 [okResponse ""])
           {| username := "git-user.example.com"; httpPassword := "1//0secret" |}
           (okResponse "") []).
  - reflexivity.
  - reflexivity.
  - apply (okResponse_serves "").
  - reflexivity.
Defined.


Lemma descending_changes_keep_their_order_witness :
  Array_sort (comparefn (P := platform)) (changesOf "9551") = changesOf "9551"
  ∧ Array_sort (comparefn (P := platform))
      (Array_sort (comparefn (P := platform)) (changesOf "1595"))
    = Array_sort (comparefn (P := platform)) (changesOf "1595").
Proof.
  split.
  - refine (proj1 (proj1 (@descending_changes_keep_their_order platform 0
                            (changesOf "9551") timeOf _) _)).
    + intros c Hc. apply list_elem_of_In in Hc. simpl in Hc.
      destruct Hc as [<- | [<- | [<- | [<- | []]]]]; reflexivity.
    + repeat constructor; vm_compute; discriminate.
  - refine (proj2 (@descending_changes_keep_their_order platform 0
                     (changesOf "1595") timeOf _)).
    intros c Hc. apply list_elem_of_In in Hc. simpl in Hc.
    destruct Hc as [<- | [<- | [<- | [<- | []]]]]; reflexivity.
Defined.

Lemma section_carries_message_exactly_when_witness :
  renderChange (P := platform) emptyHash
  = ([Warn (missingMessageWarning emptyHash)],
     bullets (H := platform) emptyHash +:+ placeholder).
Proof.
  apply (proj2 (proj2 (@section_carries_message_exactly_when platform emptyHash))).
  reflexivity.
Defined.

Lemma later_lines_never_override_witness :
  getGerritCredentials (P := platform)
    (world (Some (cookies +:+ String lf (record host "o" "late=override"))) 0 [])
    GERRIT_SERVER_URL
  = Return {| username := "git-user.example.com"; httpPassword := "1//0secret" |}.
Proof.
  apply (@later_lines_never_override platform (world (Some cookies) 0 [])
           (world (Some (cookies +:+ String lf (record host "o" "late=override"))) 0 [])
           GERRIT_SERVER_URL cookies (record host "o" "late=override")).
  - reflexivity.
  - reflexivity.
  - reflexivity.
  - reflexivity.
Defined.

Lemma carriage_return_stays_in_token_witness :
  scanLine host (record host "o" "alice=" +:+ String "013" "")
  = Some {| username := "alice"; httpPassword := "" +:+ String "013" "" |}.
Proof.
  apply (@carriage_return_stays_in_token host (record host "o" "alice=")
           host "TRUE" "/" "TRUE" "2147483647" "alice" "").
  - apply split_separated. reflexivity.
  - intros [rest E]. discriminate E.
  - apply hostMatches_spec. reflexivity.
  - discriminate.
  - rewrite list_elem_of_In. vm_compute. intuition discriminate.
  - rewrite list_elem_of_In. vm_compute. intuition discriminate.
Defined.

End FurtherSamples.
